(** * AI Visual De-identification: detection, alignment and redaction core

    A shallow embedding of the detection-and-redaction pipeline
    ([utils/detect_utils.py], [utils/redact_utils.py], [utils/ocr_utils.py]
    and [process_one_pil] of [app.py]) together with the properties of its
    specification.

    Conventions of the embedding:
    - Python [str] values are [string]s; the character predicates
      ([\d], [\w], [\s], [str.lower], [str.strip], [str.splitlines]) are
      Python's, restricted to code points below 128.
    - Python [int]s are [Z]; [//] is [Z.div] (floor), [int(float)] truncates.
    - An exception raised by the Python code is the result [None]. *)

From Stdlib Require Import ZArith List String Ascii Bool Lia Arith.
Import ListNotations.
Open Scope string_scope.
Open Scope Z_scope.

(* ===================================================================== *)
(** ** Characters and strings *)
(* ===================================================================== *)

Module Chars.

Definition code (c : ascii) : nat := nat_of_ascii c.

Definition between (lo hi : nat) (c : ascii) : bool :=
  (Nat.leb lo (code c) && Nat.leb (code c) hi)%bool.

(** [\d] on ASCII text. *)
Definition is_digit (c : ascii) : bool := between 48 57 c.

Definition is_upper (c : ascii) : bool := between 65 90 c.
Definition is_lower (c : ascii) : bool := between 97 122 c.

(** [\w] on ASCII text: letters, digits and the underscore. *)
Definition is_word (c : ascii) : bool :=
  (is_digit c || is_upper c || is_lower c || Nat.eqb (code c) 95)%bool.

(** [\s] and [str.isspace] on ASCII text: TAB, LF, VT, FF, CR,
    FS, GS, RS, US and the space. *)
Definition is_space (c : ascii) : bool :=
  (between 9 13 c || between 28 32 c)%bool.

(** The line boundaries of [str.splitlines] below 128:
    LF, VT, FF, CR, FS, GS, RS. *)
Definition is_linebreak (c : ascii) : bool :=
  (between 10 13 c || between 28 30 c)%bool.

Definition lower_char (c : ascii) : ascii :=
  if is_upper c then ascii_of_nat (code c + 32) else c.

Definition upper_char (c : ascii) : ascii :=
  if is_lower c then ascii_of_nat (code c - 32) else c.

End Chars.

Module Str.
Import Chars.

Definition LF : ascii := ascii_of_nat 10.
Definition CR : ascii := ascii_of_nat 13.

Definition is_empty (s : string) : bool :=
  match s with EmptyString => true | _ => false end.

(** [s.lower()] *)
Fixpoint lower (s : string) : string :=
  match s with
  | EmptyString => EmptyString
  | String c s' => String (lower_char c) (lower s')
  end.

(** [needle in hay] for two strings. *)
Fixpoint contains (hay needle : string) : bool :=
  match hay with
  | EmptyString => is_empty needle
  | String _ hay' => (prefix needle hay || contains hay' needle)%bool
  end.

(** [re.sub(r"\W+", '', s)]: every maximal run of non-word characters
    is replaced by the empty string, the word characters stay. *)
Fixpoint strip_nonword (s : string) : string :=
  match s with
  | EmptyString => EmptyString
  | String c s' =>
      if is_word c then String c (strip_nonword s') else strip_nonword s'
  end.

(** [s.lstrip()] *)
Fixpoint lstrip (s : string) : string :=
  match s with
  | EmptyString => EmptyString
  | String c s' => if is_space c then lstrip s' else s
  end.

(** [s.rstrip()] *)
Fixpoint rstrip (s : string) : string :=
  match s with
  | EmptyString => EmptyString
  | String c s' =>
      match rstrip s' with
      | EmptyString => if is_space c then EmptyString else String c EmptyString
      | t => String c t
      end
  end.

(** [s.strip()] *)
Definition strip (s : string) : string := rstrip (lstrip s).

(** [s[:n]] for [0 <= n]. *)
Definition take (n : nat) (s : string) : string := substring 0 n s.

(** [sep.join(parts)] *)
Fixpoint join (sep : string) (parts : list string) : string :=
  match parts with
  | [] => EmptyString
  | [p] => p
  | p :: rest => p ++ sep ++ join sep rest
  end.

(** [s.splitlines()]: [acc] is the line being read, [after_cr] tells that
    the previous character was a CR, so that CR LF is one boundary. *)
Fixpoint splitlines_go (acc : string) (after_cr : bool) (s : string)
  : list string :=
  match s with
  | EmptyString => if is_empty acc then [] else [acc]
  | String c s' =>
      if (after_cr && Ascii.eqb c LF)%bool then splitlines_go EmptyString false s'
      else if is_linebreak c
           then acc :: splitlines_go EmptyString (Ascii.eqb c CR) s'
           else splitlines_go (acc ++ String c EmptyString) false s'
  end.

Definition splitlines (s : string) : list string :=
  splitlines_go EmptyString false s.

End Str.

(* ===================================================================== *)
(** ** The regular expressions of [PATTERNS] and their matcher *)
(* ===================================================================== *)

Module Re.
Import Chars.

(** One item of a bracketed character set. *)
Inductive citem : Type :=
| CChar (c : ascii)            (* a literal character *)
| CRange (lo hi : ascii)       (* lo-hi *)
| CDigit                       (* \d *)
| CWord                        (* \w *)
| CSpace.                      (* \s *)

Inductive regex : Type :=
| Eps
| Chr (c : ascii)                          (* a literal character *)
| SetOf (negated : bool) (items : list citem)   (* [...] and [^...] *)
| Seq (r1 r2 : regex)
| Alt (r1 r2 : regex)                      (* r1|r2 *)
| Rep (r : regex) (lo : nat) (hi : option nat)  (* greedy r{lo,hi} *)
| NotBehind (items : list citem)           (* (?<![...]) *)
| NotAhead (items : list citem)            (* (?![...]) *)
| WordB.                                   (* \b *)

Definition item_has (i : citem) (c : ascii) : bool :=
  match i with
  | CChar a => Ascii.eqb a c
  | CRange lo hi => between (code lo) (code hi) c
  | CDigit => is_digit c
  | CWord => is_word c
  | CSpace => is_space c
  end.

Definition items_have (items : list citem) (c : ascii) : bool :=
  existsb (fun i => item_has i c) items.

(** Membership in a set; under [re.I] a character also matches through
    its other case. *)
Definition set_has (icase negated : bool) (items : list citem) (c : ascii)
  : bool :=
  let hit :=
    (items_have items c
     || (icase && (items_have items (lower_char c)
                   || items_have items (upper_char c))))%bool in
  if negated then negb hit else hit.

Definition chr_eq (icase : bool) (a c : ascii) : bool :=
  (Ascii.eqb a c || (icase && Ascii.eqb (lower_char a) (lower_char c)))%bool.

Definition opt_word (o : option ascii) : bool :=
  match o with Some c => is_word c | None => false end.

Definition head (s : string) : option ascii :=
  match s with EmptyString => None | String c _ => Some c end.

(** A continuation receives the character before the position, the rest
    of the text and the position, and gives the end of the whole match. *)
Definition cont : Type := option ascii -> string -> nat -> option nat.

(** Backtracking matcher with the priorities of Python's [re]: the left
    alternative first, as many iterations as possible first.  An
    unbounded repetition runs at most once per remaining character; every
    repeated expression of [PATTERNS] consumes a character. *)
Fixpoint rmatch (icase : bool) (r : regex)
         (prev : option ascii) (s : string) (pos : nat) (k : cont)
  : option nat :=
  match r with
  | Eps => k prev s pos
  | Chr c =>
      match s with
      | String a s' => if chr_eq icase c a then k (Some a) s' (S pos) else None
      | EmptyString => None
      end
  | SetOf negated items =>
      match s with
      | String a s' =>
          if set_has icase negated items a then k (Some a) s' (S pos) else None
      | EmptyString => None
      end
  | Seq r1 r2 =>
      rmatch icase r1 prev s pos (fun p s' n => rmatch icase r2 p s' n k)
  | Alt r1 r2 =>
      match rmatch icase r1 prev s pos k with
      | Some e => Some e
      | None => rmatch icase r2 prev s pos k
      end
  | Rep r lo hi =>
      let more :=
        match hi with
        | Some h => Nat.sub h lo
        | None => String.length s
        end in
      let optional :=
        fix optional (m : nat) : cont :=
          fun p s' n =>
            match m with
            | O => k p s' n
            | S m' =>
                match rmatch icase r p s' n (optional m') with
                | Some e => Some e
                | None => k p s' n
                end
            end in
      let required :=
        fix required (need : nat) : cont :=
          fun p s' n =>
            match need with
            | O => optional more p s' n
            | S need' => rmatch icase r p s' n (required need')
            end in
      required lo prev s pos
  | NotBehind items =>
      match prev with
      | Some a => if set_has false false items a then None else k prev s pos
      | None => k prev s pos
      end
  | NotAhead items =>
      match s with
      | String a _ => if set_has false false items a then None else k prev s pos
      | EmptyString => k prev s pos
      end
  | WordB =>
      if xorb (opt_word prev) (opt_word (head s)) then k prev s pos else None
  end.

(** The end of the match that starts at this position, if there is one. *)
Definition match_here (icase : bool) (r : regex)
           (prev : option ascii) (s : string) (pos : nat) : option nat :=
  rmatch icase r prev s pos (fun _ _ n => Some n).

(** [pat.finditer(text)]: the spans [(start, end)] of the non-overlapping
    matches, left to right.  [skip] counts the characters of the last
    match that are still to be passed over. *)
Fixpoint scan (icase : bool) (r : regex)
         (prev : option ascii) (s : string) (pos skip : nat)
  : list (nat * nat) :=
  match skip with
  | S skip' =>
      match s with
      | EmptyString => []
      | String c s' => scan icase r (Some c) s' (S pos) skip'
      end
  | O =>
      match match_here icase r prev s pos with
      | Some e =>
          (pos, e) ::
          match s with
          | EmptyString => []
          | String c s' => scan icase r (Some c) s' (S pos) (Nat.pred (e - pos))
          end
      | None =>
          match s with
          | EmptyString => []
          | String c s' => scan icase r (Some c) s' (S pos) O
          end
      end
  end.

Definition finditer (icase : bool) (r : regex) (text : string)
  : list (nat * nat) :=
  scan icase r None text O O.

(** [m.group(0)] of the match with this span. *)
Definition group0 (text : string) (span : nat * nat) : string :=
  substring (fst span) (snd span - fst span) text.

(** [re.search(r, text)] as a truth value. *)
Fixpoint search_from (icase : bool) (r : regex)
         (prev : option ascii) (s : string) (pos : nat) : bool :=
  match match_here icase r prev s pos with
  | Some _ => true
  | None =>
      match s with
      | EmptyString => false
      | String c s' => search_from icase r (Some c) s' (S pos)
      end
  end.

Definition search (icase : bool) (r : regex) (text : string) : bool :=
  search_from icase r None text O.

(** *** Notations for writing the patterns down *)

Definition cat (rs : list regex) : regex := fold_right Seq Eps rs.

Fixpoint lit (s : string) : regex :=
  match s with
  | EmptyString => Eps
  | String c s' => Seq (Chr c) (lit s')
  end.

Definition alts (r : regex) (rs : list regex) : regex :=
  fold_left Alt rs r.

Definition times (n : nat) (r : regex) : regex := Rep r n (Some n).
Definition range (lo hi : nat) (r : regex) : regex := Rep r lo (Some hi).
Definition at_least (lo : nat) (r : regex) : regex := Rep r lo None.
Definition opt (r : regex) : regex := Rep r 0 (Some 1%nat).
Definition plus (r : regex) : regex := Rep r 1 None.
Definition star (r : regex) : regex := Rep r 0 None.

Definition set (items : list citem) : regex := SetOf false items.
Definition digit : regex := set [CDigit].
Definition space : regex := set [CSpace].
Definition word : regex := set [CWord].
Definition ch (s : string) : citem :=
  match s with String c _ => CChar c | EmptyString => CChar Ascii.zero end.
Definition rg (a b : string) : citem :=
  match a, b with
  | String x _, String y _ => CRange x y
  | _, _ => CChar Ascii.zero
  end.

End Re.

(* ===================================================================== *)
(** ** [utils/detect_utils.py]: the Text-Finding Extractor *)
(* ===================================================================== *)

(** An unlocated finding, as [regex_entities] and the entity pass build it:
    [{"label": ..., "span": [start, end], "matched": ...}]; the entity pass
    leaves the span out. *)
Record text_finding : Type := TextFinding {
  tf_label : string;
  tf_span : option (Z * Z);
  tf_matched : string
}.

Module Patterns.
Import Re.

Definition upper : citem := rg "A" "Z".
Definition lower : citem := rg "a" "z".
Definition num : citem := rg "0" "9".
Definition sep : regex := opt (set [ch "-"; CSpace]).       (* [-\s]? *)
Definition octet : regex :=                (* 25[0-5]|2[0-4]\d|[01]?\d?\d *)
  alts (cat [lit "25"; set [rg "0" "5"]])
       [cat [lit "2"; set [rg "0" "4"]; digit];
        cat [opt (set [ch "0"; ch "1"]); opt digit; digit]].
Definition hex2 : regex := times 2 (set [num; rg "A" "F"; rg "a" "f"]).
Definition year : regex :=                              (* (?:19|20)\d{2} *)
  cat [alts (lit "19") [lit "20"]; times 2 digit].
Definition colon_dash : regex := opt (set [ch ":"; ch "-"]).   (* [:\-]? *)

(** \b[a-zA-Z0-9._%+\-]+@[a-zA-Z0-9.\-]+\.[A-Za-z]{2,}\b *)
Definition EMAIL : regex :=
  cat [WordB;
       plus (set [lower; upper; num; ch "."; ch "_"; ch "%"; ch "+"; ch "-"]);
       lit "@";
       plus (set [lower; upper; num; ch "."; ch "-"]);
       lit ".";
       at_least 2 (set [upper; lower]);
       WordB].

(** (?<!\d)(?:\+?\d{1,3}[-\s]?)?(?:\(?\d{3}\)?[-\s]?){1}\d{3}[-\s]?\d{4}(?!\d) *)
Definition PHONE : regex :=
  cat [NotBehind [CDigit];
       opt (cat [opt (lit "+"); range 1 3 digit; sep]);
       times 1 (cat [opt (lit "("); times 3 digit; opt (lit ")"); sep]);
       times 3 digit; sep; times 4 digit;
       NotAhead [CDigit]].

(** (?<!\d)(?:\d{4}[-\s]?\d{4}[-\s]?\d{4})(?!\d) *)
Definition AADHAAR : regex :=
  cat [NotBehind [CDigit];
       cat [times 4 digit; sep; times 4 digit; sep; times 4 digit];
       NotAhead [CDigit]].

(** \b[A-Z]{5}[0-9]{4}[A-Z]\b *)
Definition PAN : regex :=
  cat [WordB; times 5 (set [upper]); times 4 (set [num]); set [upper]; WordB].

(** \b[0-9]{2}[A-Z]{5}[0-9]{4}[A-Z][1-9A-Z]Z[0-9A-Z]\b *)
Definition GSTIN : regex :=
  cat [WordB; times 2 (set [num]); times 5 (set [upper]); times 4 (set [num]);
       set [upper]; set [rg "1" "9"; upper]; lit "Z"; set [num; upper]; WordB].

(** \b[A-Z]{4}0[A-Z0-9]{6}\b *)
Definition IFSC : regex :=
  cat [WordB; times 4 (set [upper]); lit "0"; times 6 (set [upper; num]); WordB].

(** \b\d{3}-\d{2}-\d{4}\b *)
Definition SSN : regex :=
  cat [WordB; times 3 digit; lit "-"; times 2 digit; lit "-"; times 4 digit;
       WordB].

(** \b\d{10}\b *)
Definition NPI : regex := cat [WordB; times 10 digit; WordB].

(** \b[A-PR-WYa-pr-wy][0-9]{7,8}\b *)
Definition PASSPORT : regex :=
  cat [WordB;
       set [rg "A" "P"; rg "R" "W"; ch "Y"; rg "a" "p"; rg "r" "w"; ch "y"];
       range 7 8 (set [num]); WordB].

(** \b[A-Z0-9]{6,15}\b *)
Definition DL_GENERIC : regex :=
  cat [WordB; range 6 15 (set [upper; num]); WordB].

(** (?:(?:\d{4}[- ]?){3}\d{4}) *)
Definition CREDIT_CARD : regex :=
  cat [times 3 (cat [times 4 digit; opt (set [ch "-"; ch " "])]);
       times 4 digit].

(** (?<!\d)\d{3}(?!\d) *)
Definition CVV : regex :=
  cat [NotBehind [CDigit]; times 3 digit; NotAhead [CDigit]].

(** (?<!\d)\d{9,18}(?!\d) *)
Definition BANK_ACC : regex :=
  cat [NotBehind [CDigit]; range 9 18 digit; NotAhead [CDigit]].

(** \b(?:DOB|Date of Birth|Birth Date)\s*[:\-]?\s*
      (?:\d{1,2}[/\-]\d{1,2}[/\-](?:19|20)\d{2}
        |[A-Za-z]{3,9}\s+\d{1,2},\s+(?:19|20)\d{2})\b        with re.I *)
Definition DOB : regex :=
  cat [WordB;
       alts (lit "DOB") [lit "Date of Birth"; lit "Birth Date"];
       star space; colon_dash; star space;
       alts (cat [range 1 2 digit; set [ch "/"; ch "-"];
                  range 1 2 digit; set [ch "/"; ch "-"]; year])
            [cat [range 3 9 (set [upper; lower]); plus space;
                  range 1 2 digit; lit ","; plus space; year]];
       WordB].

(** \b[A-TV-Z][0-9][0-9AB](?:\.[0-9A-TV-Z]{1,4})?\b *)
Definition ICD10 : regex :=
  cat [WordB; set [rg "A" "T"; rg "V" "Z"]; set [num];
       set [num; ch "A"; ch "B"];
       opt (cat [lit "."; range 1 4 (set [num; rg "A" "T"; rg "V" "Z"])]);
       WordB].

(** \b(?:(?:25[0-5]|2[0-4]\d|[01]?\d?\d)\.){3}
      (?:25[0-5]|2[0-4]\d|[01]?\d?\d)\b *)
Definition IP : regex :=
  cat [WordB; times 3 (cat [octet; lit "."]); octet; WordB].

(** \b(?:[0-9A-Fa-f]{2}[:\-]){5}[0-9A-Fa-f]{2}\b *)
Definition MAC : regex :=
  cat [WordB; times 5 (cat [hex2; set [ch ":"; ch "-"]]); hex2; WordB].

(** https?://[^\s]+ *)
Definition URL : regex :=
  cat [lit "http"; opt (lit "s"); lit "://"; plus (SetOf true [CSpace])].

(** \b(?:Member\s*ID|Policy\s*No\.?|Subscriber\s*ID|Payer\s*ID|Group\s*No\.?)
      \s*[:\-]?\s*[A-Z0-9\-]{5,20}\b                           with re.I *)
Definition INSURANCE_ID : regex :=
  cat [WordB;
       alts (cat [lit "Member"; star space; lit "ID"])
            [cat [lit "Policy"; star space; lit "No"; opt (lit ".")];
             cat [lit "Subscriber"; star space; lit "ID"];
             cat [lit "Payer"; star space; lit "ID"];
             cat [lit "Group"; star space; lit "No"; opt (lit ".")]];
       star space; colon_dash; star space;
       range 5 20 (set [upper; num; ch "-"]);
       WordB].

(** \d{1,5}\s+[A-Za-z0-9.\- ]+,\s*[A-Za-z.\- ]+[, ]+\w{2}\s+\d{4,6} *)
Definition ADDRESS_LINE : regex :=
  cat [range 1 5 digit; plus space;
       plus (set [upper; lower; num; ch "."; ch "-"; ch " "]);
       lit ","; star space;
       plus (set [upper; lower; ch "."; ch "-"; ch " "]);
       plus (set [ch ","; ch " "]);
       times 2 word; plus space; range 4 6 digit].

End Patterns.

(** [PATTERNS], in the order of the dictionary: label, [re.I] flag, pattern. *)
Definition PATTERNS : list (string * bool * Re.regex) :=
  [ ("EMAIL", false, Patterns.EMAIL);
    ("PHONE", false, Patterns.PHONE);
    ("AADHAAR", false, Patterns.AADHAAR);
    ("PAN", false, Patterns.PAN);
    ("GSTIN", false, Patterns.GSTIN);
    ("IFSC", false, Patterns.IFSC);
    ("SSN", false, Patterns.SSN);
    ("NPI", false, Patterns.NPI);
    ("PASSPORT", false, Patterns.PASSPORT);
    ("DL_GENERIC", false, Patterns.DL_GENERIC);
    ("CREDIT_CARD", false, Patterns.CREDIT_CARD);
    ("CVV", false, Patterns.CVV);
    ("BANK_ACC", false, Patterns.BANK_ACC);
    ("DOB", true, Patterns.DOB);
    ("ICD10", false, Patterns.ICD10);
    ("IP", false, Patterns.IP);
    ("MAC", false, Patterns.MAC);
    ("URL", false, Patterns.URL);
    ("INSURANCE_ID", true, Patterns.INSURANCE_ID) ].

Definition ADDRESS_HINT_WORDS : list string :=
  [ "address"; "addr."; "street"; "st."; "road"; "rd."; "lane"; "ln.";
    "avenue"; "ave."; "boulevard"; "blvd"; "city"; "state"; "zip";
    "pincode"; "pin" ].

(** The findings of one pattern: one per match of [pat.finditer(text)]. *)
Definition pattern_findings (text : string) (p : string * bool * Re.regex)
  : list text_finding :=
  let '(label, icase, pat) := p in
  map (fun m =>
         TextFinding label
                     (Some (Z.of_nat (fst m), Z.of_nat (snd m)))
                     (Re.group0 text m))
      (Re.finditer icase pat text).

(** The address heuristic on one line of the text. *)
Definition address_findings (line : string) : list text_finding :=
  let low := Str.lower line in
  if (existsb (fun k => Str.contains low k) ADDRESS_HINT_WORDS
      || Re.search false Patterns.ADDRESS_LINE line)%bool
  then
    if Nat.ltb 6 (String.length (Str.strip line))
    then [TextFinding "ADDRESS" (Some (0, 0)) (Str.take 200 (Str.strip line))]
    else []
  else [].

Definition regex_entities (text : string) : list text_finding :=
  flat_map (pattern_findings text) PATTERNS
  ++ flat_map address_findings (Str.splitlines text).

Definition scenario_text : string :=
  "Contact jane@example.com or call 555-123-4567".


(* ===================================================================== *)
(** ** [utils/detect_utils.py]: the Spatial Aligner *)
(* ===================================================================== *)

(** An OCR line [{"text": ..., "box": [x, y, w, h], "conf": ...}]; the
    confidence is read by no function of the core and is left out. *)
Record ocr_line : Type := OcrLine {
  ol_text : string;
  ol_box : list Z
}.

(** A located finding, a dictionary with optional keys: the aligner writes
    [label], [box] and [matched]; the visual detectors write [type] and
    [box], the QR detector also [matched]. *)
Record detection : Type := Detection {
  label : option string;
  type_ : option string;
  box : option (list Z);
  matched : option string
}.

(** The box of a finding that no OCR line places. *)
Definition sentinel_box : list Z := [0; 0; 0; 0].

(** [re.sub(r"\W+", '', s.lower())] *)
Definition clean (s : string) : string := Str.strip_nonword (Str.lower s).

Definition placed (tf : text_finding) (line : ocr_line) : detection :=
  Detection (Some (tf_label tf)) None (Some (ol_box line)) (Some (tf_matched tf)).

Definition unplaced (tf : text_finding) : detection :=
  Detection (Some (tf_label tf)) None (Some sentinel_box) (Some (tf_matched tf)).

(** [target and target in line["text"]] *)
Definition exact_hit (target : string) (line : ocr_line) : bool :=
  (negb (Str.is_empty target) && Str.contains (ol_text line) target)%bool.

(** [t_clean and t_clean in l_clean and len(t_clean) >= 4] *)
Definition clean_hit (target : string) (line : ocr_line) : bool :=
  let t_clean := clean target in
  let l_clean := clean (ol_text line) in
  (negb (Str.is_empty t_clean) && Str.contains l_clean t_clean
   && Nat.leb 4 (String.length t_clean))%bool.

(** The body of the loop over [text_findings]: the two inner loops stop at
    the first line that passes their test. *)
Definition align_one (ocr_lines : list ocr_line) (tf : text_finding)
  : detection :=
  let target := tf_matched tf in
  match find (exact_hit target) ocr_lines with
  | Some line => placed tf line
  | None =>
      match find (clean_hit target) ocr_lines with
      | Some line => placed tf line
      | None => unplaced tf
      end
  end.

Definition align_text_findings_to_boxes
           (text_findings : list text_finding) (ocr_lines : list ocr_line)
  : list detection :=
  map (align_one ocr_lines) text_findings.

Definition scenario_line : ocr_line :=
  OcrLine scenario_text [10; 10; 300; 20].

(* ===================================================================== *)
(** ** Images *)
(* ===================================================================== *)

(** A pixel is a triple of channel values; a [cv2] image holds them in the
    order blue, green, red, a PIL image in the order red, green, blue.  An
    image is the list of its rows, an array of shape [(H, W, 3)]. *)
Definition pixel : Type := (Z * Z * Z)%type.
Definition image : Type := list (list pixel).

Definition black : pixel := (0, 0, 0).

Definition zlength {A : Type} (l : list A) : Z := Z.of_nat (List.length l).

(** [img.shape[:2]] *)
Definition height (img : image) : Z := zlength img.
Definition width (img : image) : Z :=
  match img with
  | [] => 0
  | row :: _ => zlength row
  end.

(** [img.size == 0] *)
Definition is_empty_image (img : image) : bool :=
  match img with
  | [] => true
  | [] :: _ => true
  | _ => false
  end.

Definition swap_channels (p : pixel) : pixel :=
  let '(a, b, c) := p in (c, b, a).

(** [cv2.cvtColor(np.array(pil_img), cv2.COLOR_RGB2BGR)] *)
Definition pil_to_cv (pil_img : image) : image := map (map swap_channels) pil_img.

(** [Image.fromarray(cv2.cvtColor(cv_img, cv2.COLOR_BGR2RGB))] *)
Definition cv_to_pil (cv_img : image) : image := map (map swap_channels) cv_img.

(** The pixel in row [i], column [j]. *)
Definition pixel_at (img : image) (i j : nat) : option pixel :=
  match nth_error img i with
  | Some row => nth_error row j
  | None => None
  end.

Fixpoint mapi_from {A B : Type} (f : Z -> A -> B) (i : Z) (l : list A) : list B :=
  match l with
  | [] => []
  | a :: l' => f i a :: mapi_from f (i + 1) l'
  end.

(** Replace the pixels whose row and column satisfy [inside]. *)
Definition paint (inside : Z -> Z -> bool) (color : pixel) (img : image) : image :=
  mapi_from (fun i row =>
               mapi_from (fun j p => if inside i j then color else p) 0 row)
            0 img.

Definition in_closed (a b v : Z) : bool :=
  ((Z.min a b <=? v) && (v <=? Z.max a b))%bool.

(** [cv2.rectangle(img, (x0, y0), (x1, y1), color, thickness=-1)]: the
    filled rectangle spanned by the two corners, both corners included and
    in either order; what lies outside the image is clipped. *)
Definition cv2_rectangle (img : image) (x0 y0 x1 y1 : Z) (color : pixel) : image :=
  paint (fun i j => (in_closed y0 y1 i && in_closed x0 x1 j)%bool) color img.

(** Python's bounds of the slice [start:stop] of a sequence of length [n]:
    a negative index counts from the end, and both ends are brought into
    [0, n]. *)
Definition slice_index (n i : Z) : Z :=
  if i <? 0 then Z.max 0 (i + n) else Z.min i n.

Definition slice {A : Type} (l : list A) (start stop : Z) : list A :=
  let lo := slice_index (zlength l) start in
  let hi := slice_index (zlength l) stop in
  firstn (Z.to_nat (hi - lo)) (skipn (Z.to_nat lo) l).

(** [l[start:stop] = new] for a replacement of the slice's own length. *)
Definition splice {A : Type} (l : list A) (start stop : Z) (new : list A)
  : list A :=
  let lo := slice_index (zlength l) start in
  let hi := Z.max lo (slice_index (zlength l) stop) in
  firstn (Z.to_nat lo) l ++ new ++ skipn (Z.to_nat hi) l.

(** [img[y0:y1, x0:x1]] *)
Definition crop (img : image) (y0 y1 x0 x1 : Z) : image :=
  map (fun row => slice row x0 x1) (slice img y0 y1).

Fixpoint same_shape (a b : image) : bool :=
  match a, b with
  | [], [] => true
  | r :: a', s :: b' => (Nat.eqb (List.length r) (List.length s) && same_shape a' b')%bool
  | _, _ => false
  end.

Fixpoint map2 {A B C : Type} (f : A -> B -> C) (l : list A) (m : list B)
  : list C :=
  match l, m with
  | a :: l', b :: m' => f a b :: map2 f l' m'
  | _, _ => []
  end.

(** [img[y0:y1, x0:x1] = new]; an array of another shape is refused
    (broadcasting is not modelled). *)
Definition assign_crop (img : image) (y0 y1 x0 x1 : Z) (new : image)
  : option image :=
  if same_shape (crop img y0 y1 x0 x1) new
  then Some (splice img y0 y1
               (map2 (fun row new_row => splice row x0 x1 new_row)
                     (slice img y0 y1) new))
  else None.

(* ===================================================================== *)
(** ** [int(0.03 * w)]: the product in binary64 *)
(* ===================================================================== *)

Module Float.

(** A finite double is [m * 2^e] for integers [m] and [e]. *)
Definition double : Type := (Z * Z)%type.

(** Round [n * 2^e] to 53 significant bits, to nearest, ties to even
    (exponent range not modelled: the values here are pixel counts). *)
Definition round53 (n e : Z) : double :=
  let a := Z.abs n in
  if a <? 2 ^ 53 then (n, e)
  else
    let s := Z.log2 a - 52 in
    let q := Z.shiftr a s in
    let r := a mod 2 ^ s in
    let half := 2 ^ (s - 1) in
    let q' := if ((half <? r) || ((r =? half) && Z.odd q))%bool
              then q + 1 else q in
    (Z.sgn n * q', e + s).

(** [float(w)] *)
Definition of_int (w : Z) : double := round53 w 0.

(** [a * b] *)
Definition mul (a b : double) : double :=
  round53 (fst a * fst b) (snd a + snd b).

(** [int(a)]: towards zero. *)
Definition to_int (a : double) : Z :=
  let '(m, e) := a in
  if 0 <=? e then m * 2 ^ e else Z.quot m (2 ^ (- e)).

(** The literal [0.03], [0x1.eb851eb851eb8p-6]. *)
Definition lit_0_03 : double := (8646911284551352, -58).

End Float.

(** [int(0.03 * w)] *)
Definition pad (w : Z) : Z :=
  Float.to_int (Float.mul Float.lit_0_03 (Float.of_int w)).

(* ===================================================================== *)
(** ** [utils/redact_utils.py]: the Redaction Applier *)
(* ===================================================================== *)

(** [max(15, (max(1, width // 10) // 2) * 2 + 1)] *)
Definition kernel_size (width : Z) : Z :=
  Z.max 15 (Z.max 1 (width / 10) / 2 * 2 + 1).

(** The corners [(x0, y0, x1, y1)] computed from a box [x, y, w, h] in an
    image of [W] columns and [H] rows. *)
Definition expanded_rect (W H x y w h : Z) : Z * Z * Z * Z :=
  (Z.max 0 (x - pad w),
   Z.max 0 (y - pad h),
   Z.min W (x + w + pad w),
   Z.min H (y + h + pad h)).

(** [det.get("box", [0, 0, 0, 0])] *)
Definition box_of (det : detection) : list Z :=
  match box det with
  | Some b => b
  | None => [0; 0; 0; 0]
  end.

(** [not box or box[2] == 0 or box[3] == 0]; [None] is the [IndexError] of
    a box too short to be indexed. *)
Definition skip_test (b : list Z) : option bool :=
  match b with
  | [] => Some true
  | _ =>
      match nth_error b 2 with
      | None => None
      | Some w =>
          if w =? 0 then Some true
          else match nth_error b 3 with
               | None => None
               | Some h => Some (h =? 0)
               end
      end
  end.

Section Redaction.

(** [cv2.GaussianBlur(roi, (k, k), 0)], with [None] for [cv2.error]. *)
Variable GaussianBlur : image -> Z -> option image.

(** The [else] branch of the loop body. *)
Definition blur_region (out : image) (x0 y0 x1 y1 : Z) : option image :=
  let roi := crop out y0 y1 x0 x1 in
  if is_empty_image roi then Some out
  else
    let k := kernel_size (x1 - x0) in
    match GaussianBlur roi k with
    | Some blurred => assign_crop out y0 y1 x0 x1 blurred
    | None => None
    end.

(** One turn of the loop over [detections]. *)
Definition redact_one (W H : Z) (mode : string) (out : image) (det : detection)
  : option image :=
  let b := box_of det in
  match skip_test b with
  | None => None
  | Some true => Some out
  | Some false =>
      match b with
      | [x; y; w; h] =>
          let '(x0, y0, x1, y1) := expanded_rect W H x y w h in
          if String.eqb mode "black"
          then Some (cv2_rectangle out x0 y0 x1 y1 black)
          else blur_region out x0 y0 x1 y1
      | _ => None
      end
  end.

Fixpoint redact_loop (W H : Z) (mode : string) (out : image)
         (detections : list detection) : option image :=
  match detections with
  | [] => Some out
  | det :: rest =>
      match redact_one W H mode out det with
      | Some out' => redact_loop W H mode out' rest
      | None => None
      end
  end.

(** The result is the PIL image; the working copy [out] starts as the
    input array. *)
Definition apply_redactions_cv (cv_img : image) (detections : list detection)
           (mode : string) : option image :=
  let out := cv_img in
  let H := height out in
  let W := width out in
  option_map cv_to_pil (redact_loop W H mode out detections).

End Redaction.

(* ===================================================================== *)
(** ** The working copy of the Redaction Applier *)
(* ===================================================================== *)

(** Arrays are objects: [out = cv_img.copy()] makes a new one, and
    [cv2.rectangle(out, ...)] and [out[y0:y1, x0:x1] = blurred] write into
    it.  A store holds the arrays, a reference is an index into it. *)
Definition store : Type := list image.

(** [a.copy()]: the new store and the reference to the copy. *)
Definition np_copy (s : store) (a : nat) : option (store * nat) :=
  match nth_error s a with
  | Some img => Some ((s ++ [img])%list, List.length s)
  | None => None
  end.

(** The array at reference [a] takes the value [img]. *)
Definition write (s : store) (a : nat) (img : image) : store :=
  (firstn a s ++ img :: skipn (S a) s)%list.

Section InPlace.

Variable GaussianBlur : image -> Z -> option image.

(** The loop, writing into the array at reference [out]. *)
Fixpoint redact_loop_in_place (W H : Z) (mode : string) (s : store) (out : nat)
         (detections : list detection) : option store :=
  match detections with
  | [] => Some s
  | det :: rest =>
      match nth_error s out with
      | Some current =>
          match redact_one GaussianBlur W H mode current det with
          | Some new => redact_loop_in_place W H mode (write s out new) out rest
          | None => None
          end
      | None => None
      end
  end.

(** [apply_redactions_cv] on the array at reference [cv_img]: the PIL image
    and the store it leaves. *)
Definition apply_redactions_cv_in_place (s : store) (cv_img : nat)
           (detections : list detection) (mode : string)
  : option (image * store) :=
  match np_copy s cv_img with
  | Some (s1, out) =>
      match nth_error s1 out with
      | Some start =>
          match redact_loop_in_place (width start) (height start) mode
                                     s1 out detections with
          | Some s2 =>
              match nth_error s2 out with
              | Some final => Some (cv_to_pil final, s2)
              | None => None
              end
          | None => None
          end
      | None => None
      end
  | None => None
  end.

End InPlace.

(* ===================================================================== *)
(** ** [utils/detect_utils.py]: the entity pass *)
(* ===================================================================== *)

(** [ner_findings]: [nlp] is the result of [get_nlp(enable_ner)] when the
    pass is enabled, [None] when the model could not be loaded; a model
    gives the pairs [(e.label_, e.text)] of [doc.ents]. *)
Definition ner_findings (nlp : option (string -> list (string * string)))
           (text : string) (ocr_lines : list ocr_line) (enable_ner : bool)
  : list detection :=
  match (if enable_ner then nlp else None) with
  | None => []
  | Some model =>
      if Str.is_empty text then []
      else
        let ents :=
          map (fun e => TextFinding (fst e) None (snd e))
              (filter (fun e => (String.eqb (fst e) "PERSON"
                                 || String.eqb (fst e) "GPE"
                                 || String.eqb (fst e) "ORG")%bool)
                      (model text)) in
        align_text_findings_to_boxes ents ocr_lines
  end.

(* ===================================================================== *)
(** ** [app.py]: one page through the pipeline *)
(* ===================================================================== *)

(** The choice of [st.radio("Redaction method", ["blur", "black"])]. *)
Inductive method : Type := Blur | Black.

Definition method_name (m : method) : string :=
  match m with
  | Blur => "blur"
  | Black => "black"
  end.

(** The widgets read by [process_one_pil]. *)
Record options : Type := Options {
  redact_method : method;
  enable_ner : bool;
  auto_redact : bool;
  preview_mode : bool;
  enable_faces : bool;
  enable_signatures : bool
}.

(** A value of the log: a string or a list of findings. *)
Inductive log_value : Type :=
| VStr (s : string)
| VFindings (l : list detection).

(** A log entry is a dictionary; the pairs are in insertion order. *)
Definition log_entry : Type := list (string * log_value).

(** [log[key]] *)
Fixpoint log_get (log : log_entry) (key : string) : option log_value :=
  match log with
  | [] => None
  | (k, v) :: rest => if String.eqb k key then Some v else log_get rest key
  end.

Fixpoint enumerate_from {A : Type} (i : nat) (l : list A) : list (nat * A) :=
  match l with
  | [] => []
  | a :: l' => (i, a) :: enumerate_from (S i) l'
  end.

Section Pipeline.

(** The collaborators outside the core. *)
Variable GaussianBlur : image -> Z -> option image.
Variable ocr_with_boxes : image -> list ocr_line.
Variable nlp : option (string -> list (string * string)).
Variable detect_faces : image -> list detection.
Variable find_signature_regions : image -> list ocr_line -> list detection.
Variable detect_qr_regions : image -> list detection.
(** The answer of the check box drawn for the [i]-th detection. *)
Variable checkbox : nat -> bool.
(** [timestamp()] *)
Variable timestamp : string.

Variable opts : options.

(** [merged] *)
Definition merged_boxes (pil : image) : list detection :=
  let cv_img := pil_to_cv pil in
  let lines := ocr_with_boxes pil in
  let full_text := Str.join (String Str.LF EmptyString) (map ol_text lines) in
  let text_findings := regex_entities full_text in
  let text_boxes := align_text_findings_to_boxes text_findings lines in
  let ner_boxes := ner_findings nlp full_text lines (enable_ner opts) in
  let face_boxes := if enable_faces opts then detect_faces cv_img else [] in
  let sig_boxes :=
    if enable_signatures opts then find_signature_regions cv_img lines else [] in
  let qr_boxes := detect_qr_regions cv_img in
  text_boxes ++ ner_boxes ++ face_boxes ++ sig_boxes ++ qr_boxes.

(** [selected_boxes]: everything, or the detections whose box is ticked. *)
Definition selected_boxes (pil : image) : list detection :=
  let merged := merged_boxes pil in
  if auto_redact opts then merged
  else map snd (filter (fun p => checkbox (fst p)) (enumerate_from 0 merged)).

(** The dictionary returned next to the image. *)
Definition make_log (name page_tag : string) (merged selected : list detection)
  : log_entry :=
  [ ("file", VStr name);
    ("detections", VFindings merged);
    ("redacted", VFindings selected);
    ("mode", VStr (method_name (redact_method opts)));
    ("timestamp", VStr timestamp);
    ("page", VStr page_tag) ].

Definition process_one_pil (pil : image) (name page_tag : string)
  : option (image * log_entry) :=
  let cv_img := pil_to_cv pil in
  let merged := merged_boxes pil in
  let selected := selected_boxes pil in
  let redacted_pil :=
    if preview_mode opts then Some pil
    else apply_redactions_cv GaussianBlur cv_img selected
                             (method_name (redact_method opts)) in
  match redacted_pil with
  | Some img => Some (img, make_log name page_tag merged selected)
  | None => None
  end.

(** A unit of work of the main loop: an image and the names it is
    processed under. *)
Record page : Type := Page {
  page_image : image;
  page_name : string;
  page_tag : string
}.

(** The main loop: every page in turn, [redacted_images_global] and
    [all_logs] grow by one element per page. *)
Fixpoint process_pages (pages : list page) (images : list image)
         (all_logs : list log_entry)
  : option (list image * list log_entry) :=
  match pages with
  | [] => Some (images, all_logs)
  | p :: rest =>
      match process_one_pil (page_image p) (page_name p) (page_tag p) with
      | Some (red_pil, log) =>
          process_pages rest (images ++ [red_pil]) (all_logs ++ [log])
      | None => None
      end
  end.

(** The redaction at export time, from the log entry of the page. *)
Definition export_page (log : log_entry) (pil : image) : option image :=
  match log_get log "redacted" with
  | Some (VFindings selected) =>
      apply_redactions_cv GaussianBlur (pil_to_cv pil) selected
                          (method_name (redact_method opts))
  | _ => None
  end.

Fixpoint export_pages (logs : list log_entry) (images : list image)
  : option (list image) :=
  match logs, images with
  | log :: logs', pil :: images' =>
      match export_page log pil, export_pages logs' images' with
      | Some img, Some imgs => Some (img :: imgs)
      | _, _ => None
      end
  | _, _ => Some []
  end.

(** [real_redacted_images] and [all_logs] of a batch. *)
Definition run_batch (pages : list page)
  : option (list image * list log_entry) :=
  match process_pages pages [] [] with
  | Some (images, all_logs) =>
      if preview_mode opts
      then match export_pages all_logs images with
           | Some real => Some (real, all_logs)
           | None => None
           end
      else Some (images, all_logs)
  | None => None
  end.

End Pipeline.

(* ===================================================================== *)
(** ** Vocabulary of the specification *)
(* ===================================================================== *)

(** [t] occurs verbatim in [s]. *)
Definition occurs (t s : string) : Prop :=
  exists a b : string, s = a ++ t ++ b.

(** A non-empty match that occurs verbatim in the text of the line. *)
Definition exact_occurrence (target : string) (line : ocr_line) : Prop :=
  target <> EmptyString /\ occurs target (ol_text line).

(** A match of at least four characters after normalisation that occurs in
    the normalised text of the line. *)
Definition clean_occurrence (target : string) (line : ocr_line) : Prop :=
  (4 <= String.length (clean target))%nat
  /\ occurs (clean target) (clean (ol_text line)).

(** [line] is the first line of [lines], in list order, that satisfies [P]. *)
Definition first_line (P : ocr_line -> Prop) (lines : list ocr_line)
           (line : ocr_line) : Prop :=
  exists n : nat,
    nth_error lines n = Some line /\ P line
    /\ forall (m : nat) (l : ocr_line),
         (m < n)%nat -> nth_error lines m = Some l -> ~ P l.

(** A located finding on a page of [W] columns and [H] rows: a box of
    positive width and height that lies within the page. *)
Definition located (W H : Z) (d : detection) : Prop :=
  exists x y w h : Z,
    box d = Some [x; y; w; h]
    /\ 0 < w /\ 0 < h /\ 0 <= x /\ 0 <= y /\ x + w <= W /\ y + h <= H.

(** The box of the finding is the sentinel of an unlocated finding. *)
Definition unlocated (d : detection) : Prop := box d = Some sentinel_box.

Definition is_unlocated (d : detection) : bool :=
  match box d with
  | Some [a; b; c; e] => ((a =? 0) && (b =? 0) && (c =? 0) && (e =? 0))%bool
  | _ => false
  end.

(** A box of four numbers. *)
Definition four_box (d : detection) : Prop :=
  exists x y w h : Z, box d = Some [x; y; w; h].

(** A box of four numbers with no width or no height. *)
Definition zero_area (d : detection) : Prop :=
  exists x y w h : Z, box d = Some [x; y; w; h] /\ (w = 0 \/ h = 0).

(** [odd(n)] of the kernel rule: the odd number [2 * (max(1, n) // 2) + 1]. *)
Definition odd_of (n : Z) : Z := Z.max 1 n / 2 * 2 + 1.

(** The kernel rule in the words of the specification. *)
Definition kernel_rule (width : Z) : Z := Z.max 15 (odd_of (width / 10)).

(** The contract of [cv2.GaussianBlur]: on a non-empty image and an odd,
    positive kernel size it returns an image of the same shape. *)
Definition blur_contract (G : image -> Z -> option image) : Prop :=
  forall (roi : image) (k : Z),
    is_empty_image roi = false -> Z.odd k = true -> 0 < k ->
    exists dst : image, G roi k = Some dst /\ same_shape roi dst = true.

(** The pixels that the black fill of one finding covers: nothing for a
    skipped finding, the filled rectangle otherwise. *)
Definition black_rect (W H : Z) (det : detection) : Z -> Z -> bool :=
  match skip_test (box_of det), box_of det with
  | Some false, [x; y; w; h] =>
      let '(x0, y0, x1, y1) := expanded_rect W H x y w h in
      fun i j => (in_closed y0 y1 i && in_closed x0 x1 j)%bool
  | _, _ => fun _ _ => false
  end.

(** The pixels that the black fills of a list of findings cover. *)
Definition black_cover (W H : Z) (dets : list detection) (i j : Z) : bool :=
  existsb (fun d => black_rect W H d i j) dets.

(** Row [i], column [j] lies in the half-open rectangle between the
    corners [(x0, y0)] and [(x1, y1)]. *)
Definition in_rect (x0 y0 x1 y1 : Z) (i j : Z) : Prop :=
  y0 <= i < y1 /\ x0 <= j < x1.

(** The index of the first element of the slice [l[start:stop]], and the
    index after its last element. *)
Definition slice_lo {A : Type} (l : list A) (start : Z) : nat :=
  Z.to_nat (slice_index (zlength l) start).

Definition slice_hi {A : Type} (l : list A) (start stop : Z) : nat :=
  Z.to_nat (Z.max (slice_index (zlength l) start)
                  (slice_index (zlength l) stop)).

(** Every row has [W] pixels. *)
Definition rows_of_width (W : Z) (img : image) : Prop :=
  forall row : list pixel, In row img -> zlength row = W.

(** An array of shape [(H, W, 3)]. *)
Definition rectangular (img : image) : Prop := rows_of_width (width img) img.

(** The expanded box does not end before the left or the top edge. *)
Definition meets_image (det : detection) : Prop :=
  match box_of det with
  | [x; y; w; h] => 0 <= x + w + pad w /\ 0 <= y + h + pad h
  | _ => True
  end.

(* ===================================================================== *)
(** ** Worked examples *)
(* ===================================================================== *)

(** A stand-in blur for worked examples: every pixel of the region becomes
    the same grey. *)
Definition grey : pixel := (128, 128, 128).
Definition flat_blur (roi : image) (k : Z) : option image :=
  Some (map (map (fun _ => grey)) roi).

Definition white : pixel := (255, 255, 255).

(** An image of one colour. *)
Definition blank (rows cols : nat) (p : pixel) : image :=
  repeat (repeat p cols) rows.

(** What the extractor finds in the text of the scenario. *)
Definition scenario_findings : list text_finding :=
  [ TextFinding "EMAIL" (Some (8, 24)) "jane@example.com";
    TextFinding "PHONE" (Some (33, 45)) "555-123-4567";
    TextFinding "CVV" (Some (33, 36)) "555";
    TextFinding "CVV" (Some (37, 40)) "123" ].

(** A page whose OCR output splits a phone number over two lines. *)
Definition split_phone_lines : list ocr_line :=
  [ OcrLine "555" [10; 10; 40; 20];
    OcrLine "123-4567" [10; 40; 90; 20] ].

Definition split_phone_page : image := blank 70 120 white.

(** The widgets at their initial values, entity pass and preview off. *)
Definition example_options : options :=
  Options Blur false true false true true.

(** The selection of the page above when no visual detector fires. *)
Definition split_phone_selection : list detection :=
  selected_boxes (fun _ => split_phone_lines) None
                 (fun _ => []) (fun _ _ => []) (fun _ => [])
                 (fun _ => true) example_options split_phone_page.

(** The page above through [process_one_pil]. *)
Definition split_phone_run : option (image * log_entry) :=
  process_one_pil flat_blur (fun _ => split_phone_lines) None
                  (fun _ => []) (fun _ _ => []) (fun _ => [])
                  (fun _ => true) "20240101T000000" example_options
                  split_phone_page "scan.png" "(p1)".

(** The phone number that the joined text of the page above shows. *)
Definition split_phone_match : string := "555" ++ String Str.LF "123-4567".

Definition split_phone_finding : detection :=
  Detection (Some "PHONE") None (Some [0; 0; 0; 0]) (Some split_phone_match).

(** The log entry of the run above. *)
Definition split_phone_log : log_entry :=
  match split_phone_run with
  | Some (_, log) => log
  | None => []
  end.

(** The image returned by the run above. *)
Definition split_phone_image : image :=
  match split_phone_run with
  | Some (img, _) => img
  | None => []
  end.

(** A white image of 200 columns and 20 rows, and a finding whose box lies
    wholly to the left of it. *)
Definition wide_page : image := blank 20 200 white.

Definition left_of_page : detection :=
  Detection None (Some "QRCODE") (Some [-100; 0; 10; 10]) (Some "payload").

(** A finding with an inverted box, of negative width. *)
Definition inverted : detection :=
  Detection None (Some "FACE") (Some [50; 5; -20; 10]) None.

(** A white image of 6 columns and 6 rows, and a finding well inside it. *)
Definition small_page : image := blank 6 6 white.

Definition inner_box : detection :=
  Detection None (Some "FACE") (Some [1; 1; 2; 2]) None.

(** Two findings to place on the line of the scenario. *)
Definition scenario_probe : list text_finding :=
  [ TextFinding "EMAIL" None "jane@example.com";
    TextFinding "PERSON" None "JANE EXAMPLE" ].

(* ===================================================================== *)
(** ** Strings *)
(* ===================================================================== *)

Lemma prefix_iff_app (t s : string) :
  prefix t s = true <-> exists b : string, s = t ++ b.
Proof.
  revert s; induction t as [|c t IH]; intros s.
  - destruct s; simpl; split; intros; eauto.
  - destruct s as [|c' s]; simpl.
    + split; [discriminate | intros [b Hb]; discriminate].
    + destruct (ascii_dec c c') as [->|Hne].
      * rewrite IH. split; intros [b Hb]; exists b; congruence.
      * split; [discriminate | intros [b Hb]; congruence].
Qed.

Lemma contains_iff_occurs (s t : string) :
  Str.contains s t = true <-> occurs t s.
Proof.
  unfold occurs. induction s as [|c s IH]; cbn [Str.contains].
  - split.
    + destruct t; [|discriminate]. intros _. exists EmptyString, EmptyString.
      reflexivity.
    + intros (a & b & H). destruct a; [|discriminate].
      destruct t; [reflexivity | discriminate].
  - rewrite orb_true_iff, IH, prefix_iff_app. split.
    + intros [[b Hb] | (a & b & Hab)].
      * exists EmptyString, b. exact Hb.
      * exists (String c a), b. simpl. congruence.
    + intros (a & b & Hab). destruct a as [|c' a]; simpl in Hab.
      * left. exists b. exact Hab.
      * right. exists a, b. injection Hab as _ Hab. exact Hab.
Qed.

Lemma is_empty_false (s : string) :
  Str.is_empty s = false <-> s <> EmptyString.
Proof. destruct s; simpl; split; congruence. Qed.

(* ===================================================================== *)
(** ** The first element found *)
(* ===================================================================== *)

Lemma find_first {A : Type} (p : A -> bool) (l : list A) (x : A) :
  find p l = Some x ->
  exists n : nat,
    nth_error l n = Some x /\ p x = true
    /\ forall (m : nat) (y : A),
         (m < n)%nat -> nth_error l m = Some y -> p y = false.
Proof.
  induction l as [|a l IH]; simpl; [discriminate|].
  destruct (p a) eqn:Ha.
  - intros [= <-]. exists O. repeat split; auto. intros m y Hm. lia.
  - intros H. destruct (IH H) as (n & Hn & Hp & Hbefore).
    exists (S n). repeat split; auto.
    intros [|m] y Hm; simpl.
    + intros [= <-]. exact Ha.
    + apply Hbefore. lia.
Qed.

Lemma find_some_exists {A : Type} (p : A -> bool) (l : list A) :
  (exists y : A, In y l /\ p y = true) -> exists x : A, find p l = Some x.
Proof.
  intros (y & Hin & Hy). destruct (find p l) eqn:E; [eauto|].
  rewrite (find_none p l E y Hin) in Hy. discriminate.
Qed.

Lemma find_none_iff {A : Type} (p : A -> bool) (l : list A) :
  (forall y : A, In y l -> p y = false) -> find p l = None.
Proof.
  induction l as [|a l IH]; simpl; intros H; [reflexivity|].
  rewrite (H a (or_introl eq_refl)). apply IH. intros y Hy. apply H. now right.
Qed.

(* ===================================================================== *)
(** ** The Spatial Aligner *)
(* ===================================================================== *)

Lemma exact_hit_iff (target : string) (line : ocr_line) :
  exact_hit target line = true <-> exact_occurrence target line.
Proof.
  unfold exact_hit, exact_occurrence.
  rewrite andb_true_iff, negb_true_iff, is_empty_false, contains_iff_occurs.
  reflexivity.
Qed.

Lemma clean_hit_iff (target : string) (line : ocr_line) :
  clean_hit target line = true <-> clean_occurrence target line.
Proof.
  unfold clean_hit, clean_occurrence.
  rewrite !andb_true_iff, negb_true_iff, is_empty_false, contains_iff_occurs,
    Nat.leb_le.
  split; [tauto|]. intros [Hlen Hocc]. repeat split; auto.
  intros E. rewrite E in Hlen. simpl in Hlen. lia.
Qed.

Lemma hit_false_iff (hit : ocr_line -> bool) (P : ocr_line -> Prop)
      (line : ocr_line) :
  (hit line = true <-> P line) -> (hit line = false <-> ~ P line).
Proof. destruct (hit line); intros [H1 H2]; split; intuition congruence. Qed.

Lemma find_first_line (hit : ocr_line -> bool) (P : ocr_line -> Prop)
      (lines : list ocr_line) (line : ocr_line) :
  (forall l, hit l = true <-> P l) ->
  find hit lines = Some line -> first_line P lines line.
Proof.
  intros Hiff Hfind. destruct (find_first hit lines line Hfind) as (n & Hn & Hp & Hb).
  exists n. repeat split; auto.
  - now apply Hiff.
  - intros m l Hm Hl HP. apply Hiff in HP. rewrite (Hb m l Hm Hl) in HP.
    discriminate.
Qed.

Lemma align_one_label (lines : list ocr_line) (tf : text_finding) :
  label (align_one lines tf) = Some (tf_label tf)
  /\ matched (align_one lines tf) = Some (tf_matched tf)
  /\ type_ (align_one lines tf) = None.
Proof.
  unfold align_one.
  destruct (find (exact_hit (tf_matched tf)) lines);
    [|destruct (find (clean_hit (tf_matched tf)) lines)]; simpl; auto.
Qed.

Lemma align_one_exact (lines : list ocr_line) (tf : text_finding) :
  (exists l, In l lines /\ exact_occurrence (tf_matched tf) l) ->
  exists l, first_line (exact_occurrence (tf_matched tf)) lines l
            /\ box (align_one lines tf) = Some (ol_box l).
Proof.
  intros (l0 & Hin & Hocc).
  destruct (find_some_exists (exact_hit (tf_matched tf)) lines) as [l Hl].
  { exists l0. split; auto. now apply exact_hit_iff. }
  exists l. split.
  - apply (find_first_line (exact_hit (tf_matched tf))); auto.
    intros; apply exact_hit_iff.
  - unfold align_one. rewrite Hl. reflexivity.
Qed.

Lemma align_one_clean (lines : list ocr_line) (tf : text_finding) :
  (forall l, In l lines -> ~ exact_occurrence (tf_matched tf) l) ->
  (exists l, In l lines /\ clean_occurrence (tf_matched tf) l) ->
  exists l, first_line (clean_occurrence (tf_matched tf)) lines l
            /\ box (align_one lines tf) = Some (ol_box l).
Proof.
  intros Hno (l0 & Hin & Hocc).
  assert (Hnone : find (exact_hit (tf_matched tf)) lines = None).
  { apply find_none_iff. intros y Hy.
    apply (hit_false_iff _ (exact_occurrence (tf_matched tf))); auto.
    apply exact_hit_iff. }
  destruct (find_some_exists (clean_hit (tf_matched tf)) lines) as [l Hl].
  { exists l0. split; auto. now apply clean_hit_iff. }
  exists l. split.
  - apply (find_first_line (clean_hit (tf_matched tf))); auto.
    intros; apply clean_hit_iff.
  - unfold align_one. rewrite Hnone, Hl. reflexivity.
Qed.

Lemma align_one_unplaced (lines : list ocr_line) (tf : text_finding) :
  (forall l, In l lines -> ~ occurs (tf_matched tf) (ol_text l)) ->
  (forall l, In l lines ->
             ~ occurs (clean (tf_matched tf)) (clean (ol_text l))) ->
  align_one lines tf = unplaced tf.
Proof.
  intros Hexact Hclean. unfold align_one.
  rewrite (find_none_iff (exact_hit (tf_matched tf)) lines).
  2:{ intros y Hy.
      apply (hit_false_iff _ (exact_occurrence (tf_matched tf)));
        [apply exact_hit_iff|].
      intros [_ H]. now apply (Hexact y). }
  rewrite (find_none_iff (clean_hit (tf_matched tf)) lines); [reflexivity|].
  intros y Hy.
  apply (hit_false_iff _ (clean_occurrence (tf_matched tf)));
    [apply clean_hit_iff|].
  intros [_ H]. now apply (Hclean y).
Qed.

Lemma align_one_box (lines : list ocr_line) (tf : text_finding) :
  box (align_one lines tf) = Some sentinel_box
  \/ exists l, In l lines /\ box (align_one lines tf) = Some (ol_box l).
Proof.
  unfold align_one.
  destruct (find (exact_hit (tf_matched tf)) lines) as [l|] eqn:E1.
  - right. exists l. split; [|reflexivity]. now apply find_some in E1.
  - destruct (find (clean_hit (tf_matched tf)) lines) as [l|] eqn:E2.
    + right. exists l. split; [|reflexivity]. now apply find_some in E2.
    + left. reflexivity.
Qed.



(** C2, as stated, fails: the extractor does not yield exactly two findings
    on the text of the scenario. *)
Lemma scenario_yields_more_than_two :
  ~ (exists e p : text_finding,
        regex_entities scenario_text = [e; p]
        /\ tf_label e = "EMAIL" /\ tf_matched e = "jane@example.com"
        /\ tf_label p = "PHONE" /\ tf_matched p = "555-123-4567").
Proof.
  intros (e & p & H & _).
  assert (L : List.length (regex_entities scenario_text) = 4%nat)
    by (vm_compute; reflexivity).
  rewrite H in L. discriminate.
Qed.

(** C2, amended.  On the text of the scenario the extractor yields four
    findings: the EMAIL, the PHONE, and one CVV for each of the two groups
    of three digits of the phone number; the aligner places all four on the
    box of the only OCR line. *)
Theorem regex_entities_scenario :
  regex_entities scenario_text = scenario_findings
  /\ align_text_findings_to_boxes (regex_entities scenario_text) [scenario_line]
     = map (fun tf => Detection (Some (tf_label tf)) None
                                (Some [10; 10; 300; 20]) (Some (tf_matched tf)))
           scenario_findings.
Proof. split; vm_compute; reflexivity. Qed.

(* ===================================================================== *)
(** ** Images and colour conversion *)
(* ===================================================================== *)

Lemma swap_channels_involutive (p : pixel) :
  swap_channels (swap_channels p) = p.
Proof. destruct p as [[a b] c]. reflexivity. Qed.

Lemma pil_to_cv_to_pil (img : image) : pil_to_cv (cv_to_pil img) = img.
Proof.
  unfold pil_to_cv, cv_to_pil. rewrite map_map.
  rewrite <- (map_id img) at 2. apply map_ext. intros row.
  rewrite map_map. rewrite <- (map_id row) at 2. apply map_ext.
  apply swap_channels_involutive.
Qed.

Lemma cv_to_pil_to_cv (img : image) : cv_to_pil (pil_to_cv img) = img.
Proof. apply pil_to_cv_to_pil. Qed.

(* ===================================================================== *)
(** ** The Redaction Applier: skipped findings *)
(* ===================================================================== *)

Section RedactionFacts.

Variable G : image -> Z -> option image.

Lemma redact_one_zero_area (W H : Z) (mode : string) (out : image)
      (det : detection) :
  zero_area det -> redact_one G W H mode out det = Some out.
Proof.
  intros (x & y & w & h & Hb & Hz). unfold redact_one, box_of. rewrite Hb.
  unfold skip_test. simpl nth_error.
  destruct Hz as [-> | ->]; simpl.
  - reflexivity.
  - destruct (w =? 0); reflexivity.
Qed.

Lemma redact_loop_zero_area (W H : Z) (mode : string) (out : image)
      (dets : list detection) :
  (forall d, In d dets -> zero_area d) ->
  redact_loop G W H mode out dets = Some out.
Proof.
  induction dets as [|d dets IH]; intros Hall; simpl; [reflexivity|].
  rewrite redact_one_zero_area by (apply Hall; now left).
  apply IH. intros d' Hd'. apply Hall. now right.
Qed.

Lemma redact_one_unlocated (W H : Z) (mode : string) (out : image)
      (det : detection) :
  is_unlocated det = true -> redact_one G W H mode out det = Some out.
Proof.
  intros Hu. apply redact_one_zero_area. unfold is_unlocated in Hu.
  destruct (box det) as [[|a [|b [|c [|e [|? ?]]]]]|] eqn:E; try discriminate.
  exists a, b, c, e. split; [exact E|]. left.
  rewrite !andb_true_iff in Hu. lia.
Qed.

Lemma redact_loop_drop_unlocated (W H : Z) (mode : string) (out : image)
      (dets : list detection) :
  redact_loop G W H mode out dets
  = redact_loop G W H mode out (filter (fun d => negb (is_unlocated d)) dets).
Proof.
  revert out. induction dets as [|d dets IH]; intros out; simpl; [reflexivity|].
  destruct (is_unlocated d) eqn:E; simpl.
  - rewrite redact_one_unlocated by exact E. apply IH.
  - destruct (redact_one G W H mode out d); [apply IH | reflexivity].
Qed.

End RedactionFacts.

(** C4. A finding whose matched text occurs in no OCR line, neither verbatim
    nor after normalisation, is kept by the aligner, at its place, with the
    sentinel box [0, 0, 0, 0]; and redacting an image with findings that all
    have a box of no width or no height returns, whatever the mode and
    without error, the pixels of the input image. *)
Theorem unalignable_finding_kept_and_skipped :
  (forall (text_findings : list text_finding) (ocr_lines : list ocr_line)
          (i : nat) (tf : text_finding),
      nth_error text_findings i = Some tf ->
      (forall l, In l ocr_lines -> ~ occurs (tf_matched tf) (ol_text l)) ->
      (forall l, In l ocr_lines ->
                 ~ occurs (clean (tf_matched tf)) (clean (ol_text l))) ->
      nth_error (align_text_findings_to_boxes text_findings ocr_lines) i
      = Some (Detection (Some (tf_label tf)) None (Some [0; 0; 0; 0])
                        (Some (tf_matched tf))))
  /\ (forall (GaussianBlur : image -> Z -> option image) (cv_img : image)
             (detections : list detection) (mode : string),
         (forall d, In d detections -> zero_area d) ->
         apply_redactions_cv GaussianBlur cv_img detections mode
         = Some (cv_to_pil cv_img)
         /\ pil_to_cv (cv_to_pil cv_img) = cv_img).
Proof.
  split.
  - intros tfs lines i tf Hi Hexact Hclean.
    unfold align_text_findings_to_boxes.
    rewrite nth_error_map, Hi. simpl.
    rewrite align_one_unplaced by assumption. reflexivity.
  - intros G img dets mode Hall. split; [|apply pil_to_cv_to_pil].
    unfold apply_redactions_cv.
    rewrite redact_loop_zero_area by exact Hall. reflexivity.
Qed.

(** The aligner keeps a name that no line shows, and the applier leaves the
    image alone for it. *)
Lemma unalignable_finding_kept_and_skipped_witness :
  nth_error (align_text_findings_to_boxes
               [TextFinding "PERSON" None "Zed"] [scenario_line]) 0
  = Some (Detection (Some "PERSON") None (Some [0; 0; 0; 0]) (Some "Zed"))
  /\ apply_redactions_cv flat_blur (blank 2 2 white)
       [Detection (Some "PERSON") None (Some [0; 0; 0; 0]) (Some "Zed")] "blur"
     = Some (cv_to_pil (blank 2 2 white)).
Proof.
  destruct unalignable_finding_kept_and_skipped as [Halign Hskip]. split.
  - apply (Halign [TextFinding "PERSON" None "Zed"] [scenario_line] O
                  (TextFinding "PERSON" None "Zed") eq_refl).
    + intros l [<-|[]] Hocc. apply contains_iff_occurs in Hocc.
      vm_compute in Hocc. discriminate.
    + intros l [<-|[]] Hocc. apply contains_iff_occurs in Hocc.
      vm_compute in Hocc. discriminate.
  - apply Hskip. intros d [<-|[]]. exists 0, 0, 0, 0. split; [reflexivity|].
    left. reflexivity.
Defined.

(* ===================================================================== *)
(** ** Painting *)
(* ===================================================================== *)

Lemma mapi_from_ext {A B : Type} (f g : Z -> A -> B) (i : Z) (l : list A) :
  (forall k a, f k a = g k a) -> mapi_from f i l = mapi_from g i l.
Proof.
  intros Hfg. revert i. induction l as [|a l IH]; intros i; simpl;
    [reflexivity | now rewrite Hfg, IH].
Qed.

Lemma mapi_from_mapi_from {A B C : Type} (f : Z -> B -> C) (g : Z -> A -> B)
      (i : Z) (l : list A) :
  mapi_from f i (mapi_from g i l) = mapi_from (fun k a => f k (g k a)) i l.
Proof.
  revert i. induction l as [|a l IH]; intros i; simpl;
    [reflexivity | now rewrite IH].
Qed.

Lemma length_mapi_from {A B : Type} (f : Z -> A -> B) (i : Z) (l : list A) :
  List.length (mapi_from f i l) = List.length l.
Proof.
  revert i. induction l as [|a l IH]; intros i; simpl;
    [reflexivity | now rewrite IH].
Qed.

Lemma mapi_from_id {A : Type} (i : Z) (l : list A) :
  mapi_from (fun _ a => a) i l = l.
Proof.
  revert i. induction l as [|a l IH]; intros i; simpl;
    [reflexivity | now rewrite IH].
Qed.

Lemma paint_ext (P Q : Z -> Z -> bool) (c : pixel) (img : image) :
  (forall i j, P i j = Q i j) -> paint P c img = paint Q c img.
Proof.
  intros HPQ. unfold paint. apply mapi_from_ext. intros i row.
  apply mapi_from_ext. intros j p. now rewrite HPQ.
Qed.

Lemma paint_nothing (c : pixel) (img : image) :
  paint (fun _ _ => false) c img = img.
Proof.
  unfold paint. rewrite <- (mapi_from_id 0 img) at 2.
  apply mapi_from_ext. intros i row. apply mapi_from_id.
Qed.

Lemma paint_paint (P Q : Z -> Z -> bool) (c : pixel) (img : image) :
  paint P c (paint Q c img) = paint (fun i j => (P i j || Q i j)%bool) c img.
Proof.
  unfold paint. rewrite mapi_from_mapi_from. apply mapi_from_ext. intros i row.
  rewrite mapi_from_mapi_from. apply mapi_from_ext. intros j p.
  destruct (P i j), (Q i j); reflexivity.
Qed.

Lemma height_paint (P : Z -> Z -> bool) (c : pixel) (img : image) :
  height (paint P c img) = height img.
Proof. unfold height, zlength, paint. now rewrite length_mapi_from. Qed.

Lemma width_paint (P : Z -> Z -> bool) (c : pixel) (img : image) :
  width (paint P c img) = width img.
Proof.
  destruct img as [|row img]; [reflexivity|].
  unfold width, zlength, paint. simpl. now rewrite length_mapi_from.
Qed.

(* ===================================================================== *)
(** ** The Redaction Applier: the black fill *)
(* ===================================================================== *)

Section BlackFill.

Variable G : image -> Z -> option image.

(** Whether a turn of the loop raises does not depend on the pixels, and
    its effect is to paint the rectangle of the finding. *)
Lemma redact_one_black (W H : Z) (out out' : image) (det : detection) :
  redact_one G W H "black" out det = Some out' ->
  forall out2 : image,
    redact_one G W H "black" out2 det
    = Some (paint (black_rect W H det) black out2).
Proof.
  unfold redact_one, black_rect. intros Hone out2.
  destruct (skip_test (box_of det)) as [[|]|]; try discriminate.
  - now rewrite paint_nothing.
  - destruct (box_of det) as [|x [|y [|w [|h [|? ?]]]]]; try discriminate.
    destruct (expanded_rect W H x y w h) as [[[x0 y0] x1] y1].
    reflexivity.
Qed.

Lemma redact_loop_black (W H : Z) (dets : list detection) :
  forall out out' : image,
    redact_loop G W H "black" out dets = Some out' ->
    forall out2 : image,
      redact_loop G W H "black" out2 dets
      = Some (paint (black_cover W H dets) black out2).
Proof.
  induction dets as [|d dets IH]; intros out out' Hloop out2.
  - simpl. now rewrite paint_nothing.
  - simpl in Hloop.
    destruct (redact_one G W H "black" out d) as [o1|] eqn:Hone;
      [|discriminate].
    cbn [redact_loop]. rewrite (redact_one_black _ _ _ _ _ Hone out2).
    rewrite (IH _ _ Hloop). rewrite paint_paint. f_equal.
    apply paint_ext. intros i j. simpl. apply orb_comm.
Qed.

Lemma redact_one_black_total (W H : Z) (out : image) (det : detection) :
  four_box det -> exists out', redact_one G W H "black" out det = Some out'.
Proof.
  intros (x & y & w & h & Hb). unfold redact_one, box_of. rewrite Hb.
  unfold skip_test, expanded_rect. simpl.
  destruct (w =? 0), (h =? 0); simpl; eauto.
Qed.

Lemma redact_loop_black_total (W H : Z) (dets : list detection) :
  (forall d, In d dets -> four_box d) ->
  forall out, exists out', redact_loop G W H "black" out dets = Some out'.
Proof.
  induction dets as [|d dets IH]; intros Hall out; simpl; [eauto|].
  destruct (redact_one_black_total W H out d (Hall d (or_introl eq_refl)))
    as [o1 ->].
  apply IH. intros d' Hd'. apply Hall. now right.
Qed.

Lemma apply_black_twice (cv_img : image) (dets : list detection) (p : image) :
  apply_redactions_cv G cv_img dets "black" = Some p ->
  apply_redactions_cv G (pil_to_cv p) dets "black" = Some p.
Proof.
  unfold apply_redactions_cv. intros Hfirst.
  destruct (redact_loop G (width cv_img) (height cv_img) "black" cv_img dets)
    as [out|] eqn:Hloop; [|discriminate].
  injection Hfirst as <-. rewrite pil_to_cv_to_pil.
  pose proof (redact_loop_black _ _ _ _ _ Hloop) as Hany.
  assert (Hout : out = paint (black_cover (width cv_img) (height cv_img) dets)
                             black cv_img).
  { specialize (Hany cv_img). congruence. }
  rewrite Hout at 1 2 3. rewrite width_paint, height_paint.
  rewrite Hany, paint_paint. simpl. do 2 f_equal. rewrite Hout.
  apply paint_ext. intros i j. apply orb_diag.
Qed.

End BlackFill.

(** C8. For every image and every list of findings with boxes of four
    numbers, redacting in mode [black] succeeds, and redacting the result,
    converted back to a [cv2] array, in mode [black] with the same list
    gives the pixels of the first result again. *)
Theorem black_redaction_idempotent :
  forall (GaussianBlur : image -> Z -> option image) (cv_img : image)
         (detections : list detection),
    (forall d, In d detections -> four_box d) ->
    exists once : image,
      apply_redactions_cv GaussianBlur cv_img detections "black" = Some once
      /\ apply_redactions_cv GaussianBlur (pil_to_cv once) detections "black"
         = Some once.
Proof.
  intros G img dets Hall.
  destruct (redact_loop_black_total G (width img) (height img) dets Hall img)
    as [out Hout].
  exists (cv_to_pil out).
  assert (Hfirst : apply_redactions_cv G img dets "black" = Some (cv_to_pil out)).
  { unfold apply_redactions_cv. now rewrite Hout. }
  split; [exact Hfirst|]. eapply apply_black_twice. exact Hfirst.
Qed.

(** A face box on a small white image, filled twice. *)
Lemma black_redaction_idempotent_witness :
  exists once : image,
    apply_redactions_cv flat_blur (blank 4 4 white)
      [Detection None (Some "FACE") (Some [1; 1; 2; 2]) None] "black"
    = Some once
    /\ apply_redactions_cv flat_blur (pil_to_cv once)
         [Detection None (Some "FACE") (Some [1; 1; 2; 2]) None] "black"
       = Some once.
Proof.
  apply (black_redaction_idempotent flat_blur (blank 4 4 white)
           [Detection None (Some "FACE") (Some [1; 1; 2; 2]) None]).
  intros d [<-|[]]. exists 1, 1, 2, 2. reflexivity.
Defined.

(* ===================================================================== *)
(** ** The blur kernel *)
(* ===================================================================== *)

Lemma kernel_size_odd (width : Z) : Z.odd (kernel_size width) = true.
Proof.
  unfold kernel_size.
  destruct (Z.max_spec 15 (Z.max 1 (width / 10) / 2 * 2 + 1)) as [[_ ->]|[_ ->]].
  - rewrite Z.add_comm, Z.mul_comm, Z.odd_add_mul_2. reflexivity.
  - reflexivity.
Qed.

Lemma kernel_size_floor (width : Z) : 15 <= kernel_size width.
Proof. unfold kernel_size. apply Z.le_max_l. Qed.

Lemma kernel_size_monotone (w1 w2 : Z) :
  w1 <= w2 -> kernel_size w1 <= kernel_size w2.
Proof.
  intros Hle. unfold kernel_size.
  assert (H10 : w1 / 10 <= w2 / 10) by (apply Z.div_le_mono; lia).
  assert (H2 : Z.max 1 (w1 / 10) / 2 <= Z.max 1 (w2 / 10) / 2)
    by (apply Z.div_le_mono; lia).
  lia.
Qed.

(** C7. In blur mode the kernel handed to the blur is computed from the
    width [x1 - x0] of the expanded, clamped rectangle by the rule
    [max(15, odd(width / 10))]; it is odd, at least 15, and monotone in the
    width.  A box of width 300 with room around it gets the kernel 31, a
    box of width 50 the floor 15. *)
Theorem blur_kernel_sizing :
  (forall (GaussianBlur : image -> Z -> option image) (out : image)
          (x0 y0 x1 y1 : Z),
      is_empty_image (crop out y0 y1 x0 x1) = false ->
      blur_region GaussianBlur out x0 y0 x1 y1
      = match GaussianBlur (crop out y0 y1 x0 x1) (kernel_rule (x1 - x0)) with
        | Some blurred => assign_crop out y0 y1 x0 x1 blurred
        | None => None
        end)
  /\ (forall width : Z,
         kernel_size width = kernel_rule width
         /\ Z.odd (kernel_size width) = true
         /\ 15 <= kernel_size width)
  /\ (forall w1 w2 : Z, w1 <= w2 -> kernel_size w1 <= kernel_size w2)
  /\ (forall W H x y h : Z,
         9 <= x -> x + 309 <= W ->
         expanded_rect W H x y 300 h
         = (x - 9, Z.max 0 (y - pad h), x + 309, Z.min H (y + h + pad h))
         /\ expanded_rect W H x y 50 h
            = (x - 1, Z.max 0 (y - pad h), x + 51, Z.min H (y + h + pad h))
         /\ kernel_size ((x + 309) - (x - 9)) = 31
         /\ kernel_size ((x + 51) - (x - 1)) = 15
         /\ kernel_size ((x + 51) - (x - 1)) < kernel_size ((x + 309) - (x - 9))).
Proof.
  split; [|split; [|split]].
  - intros G out x0 y0 x1 y1 Hroi. unfold blur_region. rewrite Hroi.
    reflexivity.
  - intros width. repeat split.
    + apply kernel_size_odd.
    + apply kernel_size_floor.
  - apply kernel_size_monotone.
  - intros W H x y h Hx HW.
    replace (x + 309 - (x - 9)) with 318 by lia.
    replace (x + 51 - (x - 1)) with 52 by lia.
    unfold expanded_rect.
    change (pad 300) with 9. change (pad 50) with 1.
    rewrite (Z.max_r 0 (x - 9)), (Z.min_r W (x + 300 + 9)) by lia.
    rewrite (Z.max_r 0 (x - 1)), (Z.min_r W (x + 50 + 1)) by lia.
    replace (x + 300 + 9) with (x + 309) by lia.
    replace (x + 50 + 1) with (x + 51) by lia.
    repeat split.
Qed.

(** The two boxes of the scaling scenario in an image 1000 pixels wide,
    and the blur of a region of a small image. *)
Lemma blur_kernel_sizing_witness :
  blur_region flat_blur small_page 1 1 3 3
  = match flat_blur (crop small_page 1 3 1 3) (kernel_rule (3 - 1)) with
    | Some blurred => assign_crop small_page 1 3 1 3 blurred
    | None => None
    end
  /\ expanded_rect 1000 100 100 10 300 20 = (91, 10, 409, 30)
  /\ expanded_rect 1000 100 100 10 50 20 = (99, 10, 151, 30)
  /\ kernel_size (409 - 91) = 31
  /\ kernel_size (151 - 99) = 15
  /\ kernel_size 52 <= kernel_size 318.
Proof.
  destruct blur_kernel_sizing as (Hcall & _ & Hmono & Hboxes).
  destruct (Hboxes 1000 100 100 10 20) as (H300 & H50 & K300 & K50 & _);
    [lia | lia |].
  split; [|split; [|split; [|split; [|split]]]].
  - apply Hcall. reflexivity.
  - rewrite H300. reflexivity.
  - rewrite H50. reflexivity.
  - exact K300.
  - exact K50.
  - apply Hmono. lia.
Defined.

(* ===================================================================== *)
(** ** The mode argument *)
(* ===================================================================== *)

Section Modes.

Variable G : image -> Z -> option image.

Lemma redact_one_other_mode (W H : Z) (mode : string) (out : image)
      (det : detection) :
  mode <> "black" ->
  redact_one G W H mode out det = redact_one G W H "blur" out det.
Proof.
  intros Hmode. unfold redact_one.
  apply String.eqb_neq in Hmode. rewrite Hmode. reflexivity.
Qed.

Lemma redact_loop_other_mode (W H : Z) (mode : string) (out : image)
      (dets : list detection) :
  mode <> "black" ->
  redact_loop G W H mode out dets = redact_loop G W H "blur" out dets.
Proof.
  intros Hmode. revert out.
  induction dets as [|d dets IH]; intros out; simpl; [reflexivity|].
  rewrite (redact_one_other_mode W H mode out d Hmode).
  destruct (redact_one G W H "blur" out d); [apply IH | reflexivity].
Qed.

End Modes.

(* ===================================================================== *)
(** ** No exception under the contract of the blur *)
(* ===================================================================== *)

Lemma same_shape_flat (roi : image) :
  same_shape roi (map (map (fun _ => grey)) roi) = true.
Proof.
  induction roi as [|row roi IH]; simpl; [reflexivity|].
  now rewrite length_map, Nat.eqb_refl.
Qed.

Lemma flat_blur_contract : blur_contract flat_blur.
Proof.
  intros roi k _ _ _. exists (map (map (fun _ => grey)) roi).
  split; [reflexivity | apply same_shape_flat].
Qed.

Section Totality.

Variable G : image -> Z -> option image.
Hypothesis G_contract : blur_contract G.

Lemma blur_region_total (out : image) (x0 y0 x1 y1 : Z) :
  exists out' : image, blur_region G out x0 y0 x1 y1 = Some out'.
Proof.
  unfold blur_region.
  destruct (is_empty_image (crop out y0 y1 x0 x1)) eqn:Hroi; [eauto|].
  destruct (G_contract (crop out y0 y1 x0 x1) (kernel_size (x1 - x0)) Hroi)
    as (dst & -> & Hshape).
  - apply kernel_size_odd.
  - pose proof (kernel_size_floor (x1 - x0)). lia.
  - unfold assign_crop. rewrite Hshape. eauto.
Qed.

Lemma redact_one_total (W H : Z) (mode : string) (out : image)
      (det : detection) :
  four_box det ->
  exists out' : image, redact_one G W H mode out det = Some out'.
Proof.
  intros (x & y & w & h & Hb). unfold redact_one, box_of. rewrite Hb.
  unfold skip_test, expanded_rect. simpl.
  destruct (w =? 0), (h =? 0); simpl; eauto.
  destruct (String.eqb mode "black"); [eauto | apply blur_region_total].
Qed.

Lemma redact_loop_total (W H : Z) (mode : string) (dets : list detection) :
  (forall d, In d dets -> four_box d) ->
  forall out : image,
  exists out' : image, redact_loop G W H mode out dets = Some out'.
Proof.
  induction dets as [|d dets IH]; intros Hall out; simpl; [eauto|].
  destruct (redact_one_total W H mode out d (Hall d (or_introl eq_refl)))
    as [o1 ->].
  apply IH. intros d' Hd'. apply Hall. now right.
Qed.

(** With boxes of four numbers the applier raises in no mode. *)
Lemma apply_redactions_cv_total (cv_img : image) (dets : list detection)
      (mode : string) :
  (forall d, In d dets -> four_box d) ->
  exists result : image, apply_redactions_cv G cv_img dets mode = Some result.
Proof.
  intros Hall. unfold apply_redactions_cv.
  destruct (redact_loop_total (width cv_img) (height cv_img) mode dets Hall
                              cv_img) as [out ->].
  simpl. eauto.
Qed.

End Totality.



(* ===================================================================== *)
(** ** One page through the pipeline *)
(* ===================================================================== *)

Lemma align_boxes (tfs : list text_finding) (lines : list ocr_line)
      (d : detection) :
  In d (align_text_findings_to_boxes tfs lines) ->
  unlocated d \/ exists l, In l lines /\ box d = Some (ol_box l).
Proof.
  unfold align_text_findings_to_boxes. rewrite in_map_iff.
  intros (tf & <- & _). apply align_one_box.
Qed.

Lemma ner_boxes (nlp : option (string -> list (string * string)))
      (text : string) (lines : list ocr_line) (enable : bool) (d : detection) :
  In d (ner_findings nlp text lines enable) ->
  unlocated d \/ exists l, In l lines /\ box d = Some (ol_box l).
Proof.
  unfold ner_findings.
  destruct (if enable then nlp else None) as [model|]; [|intros []].
  destruct (Str.is_empty text); [intros []|]. apply align_boxes.
Qed.

Lemma in_ticked {A : Type} (tick : nat -> bool) (l : list A) (i : nat) (a : A) :
  In a (map snd (filter (fun p => tick (fst p)) (enumerate_from i l))) ->
  In a l.
Proof.
  revert i. induction l as [|b l IH]; intros i; simpl; [tauto|].
  destruct (tick i); simpl.
  - intros [->|H]; [now left | right; eauto].
  - intros H. right. eauto.
Qed.

Section PipelineFacts.

Variable G : image -> Z -> option image.
Variable ocr : image -> list ocr_line.
Variable nlp : option (string -> list (string * string)).
Variable faces : image -> list detection.
Variable signatures : image -> list ocr_line -> list detection.
Variable qrs : image -> list detection.
Variable checkbox : nat -> bool.
Variable now : string.
Variable opts : options.

Lemma selected_in_merged (pil : image) (d : detection) :
  In d (selected_boxes ocr nlp faces signatures qrs checkbox opts pil) ->
  In d (merged_boxes ocr nlp faces signatures qrs opts pil).
Proof.
  unfold selected_boxes.
  destruct (auto_redact opts); [intros H; exact H|]. apply in_ticked.
Qed.

Lemma merged_origin (pil : image) (d : detection) :
  In d (merged_boxes ocr nlp faces signatures qrs opts pil) ->
  In d (faces (pil_to_cv pil))
  \/ In d (signatures (pil_to_cv pil) (ocr pil))
  \/ In d (qrs (pil_to_cv pil))
  \/ unlocated d
  \/ exists l, In l (ocr pil) /\ box d = Some (ol_box l).
Proof.
  unfold merged_boxes. rewrite !in_app_iff.
  intros [H|[H|[H|[H|H]]]].
  - right; right; right. exact (align_boxes _ _ _ H).
  - right; right; right. exact (ner_boxes _ _ _ _ _ H).
  - destruct (enable_faces opts); [now left | destruct H].
  - destruct (enable_signatures opts); [right; now left | destruct H].
  - right; right; now left.
Qed.

Lemma process_one_pil_log (pil : image) (name tag : string)
      (img : image) (log : log_entry) :
  process_one_pil G ocr nlp faces signatures qrs checkbox now opts
                  pil name tag = Some (img, log) ->
  log = make_log now opts name tag
          (merged_boxes ocr nlp faces signatures qrs opts pil)
          (selected_boxes ocr nlp faces signatures qrs checkbox opts pil).
Proof.
  unfold process_one_pil.
  destruct (if preview_mode opts then _ else _); [|discriminate].
  now intros [= _ <-].
Qed.

Lemma process_pages_logs (pages : list (page)) :
  forall (images0 : list image) (logs0 : list log_entry)
         (images : list image) (logs : list log_entry),
    process_pages G ocr nlp faces signatures qrs checkbox now opts
                  pages images0 logs0 = Some (images, logs) ->
    exists fresh : list log_entry,
      logs = (logs0 ++ fresh)%list
      /\ Forall2 (fun p log =>
                    exists img,
                      process_one_pil G ocr nlp faces signatures qrs checkbox
                                      now opts (page_image p) (page_name p)
                                      (page_tag p) = Some (img, log))
                 pages fresh.
Proof.
  induction pages as [|p pages IH]; intros images0 logs0 images logs; simpl.
  - intros [= <- <-]. exists []. rewrite app_nil_r. split; constructor.
  - destruct (process_one_pil G ocr nlp faces signatures qrs checkbox now opts
                              (page_image p) (page_name p) (page_tag p))
      as [[red log]|] eqn:Hone; [|discriminate].
    intros Hrest. destruct (IH _ _ _ _ Hrest) as (fresh & -> & Hall).
    exists (log :: fresh). rewrite <- app_assoc. split; [reflexivity|].
    constructor; [eauto | exact Hall].
Qed.

Lemma run_batch_logs (pages : list page) (images : list image)
      (logs : list log_entry) :
  run_batch G ocr nlp faces signatures qrs checkbox now opts pages
  = Some (images, logs) ->
  Forall2 (fun p log =>
             exists img,
               process_one_pil G ocr nlp faces signatures qrs checkbox
                               now opts (page_image p) (page_name p)
                               (page_tag p) = Some (img, log))
          pages logs.
Proof.
  unfold run_batch.
  destruct (process_pages G ocr nlp faces signatures qrs checkbox now opts
                          pages [] []) as [[imgs all_logs]|] eqn:Hpages;
    [|discriminate].
  destruct (process_pages_logs _ _ _ _ _ Hpages) as (fresh & Hlogs & Hall).
  simpl in Hlogs. subst all_logs.
  destruct (preview_mode opts).
  - destruct (export_pages G opts fresh imgs); [|discriminate].
    now intros [= _ <-].
  - now intros [= _ <-].
Qed.

End PipelineFacts.

(** C1, as stated, fails: on a page whose OCR output splits a phone number
    over two lines, the selection handed to the applier holds a finding
    that is not located. *)
Lemma selection_not_all_located :
  ~ (forall d : detection,
        In d split_phone_selection ->
        located (width split_phone_page) (height split_phone_page) d).
Proof.
  intros Hall.
  destruct (Hall split_phone_finding) as (x & y & w & h & Hb & Hw & _).
  - vm_compute. left. reflexivity.
  - injection Hb as _ _ <- _. lia.
Qed.

(** C1, amended.  Every finding of the selection handed to the applier
    comes from a visual detector, or carries the sentinel box [0, 0, 0, 0],
    or carries the box of one of the page's OCR lines; findings with the
    sentinel box do reach the applier, which skips them: redacting the
    selection gives what redacting it without those findings gives. *)
Theorem selection_boxes_and_skipped_sentinels :
  forall (GaussianBlur : image -> Z -> option image)
         (ocr_with_boxes : image -> list ocr_line)
         (nlp : option (string -> list (string * string)))
         (detect_faces : image -> list detection)
         (find_signature_regions : image -> list ocr_line -> list detection)
         (detect_qr_regions : image -> list detection)
         (checkbox : nat -> bool) (opts : options) (pil : image),
    let selected :=
      selected_boxes ocr_with_boxes nlp detect_faces find_signature_regions
                     detect_qr_regions checkbox opts pil in
    (forall d : detection,
        In d selected ->
        In d (detect_faces (pil_to_cv pil))
        \/ In d (find_signature_regions (pil_to_cv pil) (ocr_with_boxes pil))
        \/ In d (detect_qr_regions (pil_to_cv pil))
        \/ unlocated d
        \/ exists l, In l (ocr_with_boxes pil) /\ box d = Some (ol_box l))
    /\ (forall mode : string,
           apply_redactions_cv GaussianBlur (pil_to_cv pil) selected mode
           = apply_redactions_cv GaussianBlur (pil_to_cv pil)
               (filter (fun d => negb (is_unlocated d)) selected) mode).
Proof.
  intros G ocr nlp faces signatures qrs checkbox opts pil selected. split.
  - intros d Hd. apply (merged_origin ocr nlp faces signatures qrs opts).
    now apply (selected_in_merged ocr nlp faces signatures qrs checkbox opts).
  - intros mode. unfold apply_redactions_cv.
    now rewrite redact_loop_drop_unlocated.
Qed.

(** The split phone number reaches the applier with the sentinel box. *)
Lemma selection_boxes_and_skipped_sentinels_witness :
  In split_phone_finding (@nil detection)
  \/ In split_phone_finding (@nil detection)
  \/ In split_phone_finding (@nil detection)
  \/ unlocated split_phone_finding
  \/ exists l, In l split_phone_lines
               /\ box split_phone_finding = Some (ol_box l).
Proof.
  apply (proj1 (selection_boxes_and_skipped_sentinels
                  flat_blur (fun _ => split_phone_lines) None
                  (fun _ => []) (fun _ _ => []) (fun _ => [])
                  (fun _ => true) example_options split_phone_page)).
  vm_compute. left. reflexivity.
Defined.

(** C9, as stated, fails: the log entry of a page has no field named
    [page_tag]. *)
Lemma log_entry_without_page_tag :
  ~ (forall (img : image) (log : log_entry),
        split_phone_run = Some (img, log) -> In "page_tag" (map fst log)).
Proof.
  intros Hall.
  destruct split_phone_run as [[img log]|] eqn:Erun;
    [|vm_compute in Erun; discriminate].
  specialize (Hall img log eq_refl).
  unfold split_phone_run in Erun. apply process_one_pil_log in Erun.
  subst log. simpl in Hall.
  repeat (destruct Hall as [Hall|Hall]; [discriminate|]). exact Hall.
Qed.

(** C9, amended.  The log entry of a page is a record with exactly the
    fields, in this order, [file] (string), [detections] (list of
    findings), [redacted] (list of findings), [mode] ([blur] or [black]),
    [timestamp] (string) and [page] (string, the page tag); the entries of
    the log of a batch are, page by page and in page order, the entries as
    they were created. *)
Theorem log_entry_wire_format :
  forall (GaussianBlur : image -> Z -> option image)
         (ocr_with_boxes : image -> list ocr_line)
         (nlp : option (string -> list (string * string)))
         (detect_faces : image -> list detection)
         (find_signature_regions : image -> list ocr_line -> list detection)
         (detect_qr_regions : image -> list detection)
         (checkbox : nat -> bool) (timestamp : string) (opts : options),
    let run_page := process_one_pil GaussianBlur ocr_with_boxes nlp detect_faces
                      find_signature_regions detect_qr_regions checkbox
                      timestamp opts in
    (forall (pil : image) (name tag : string) (img : image) (log : log_entry),
        run_page pil name tag = Some (img, log) ->
        exists mode : string,
          (mode = "blur" \/ mode = "black")
          /\ log = [ ("file", VStr name);
                     ("detections",
                      VFindings (merged_boxes ocr_with_boxes nlp detect_faces
                                   find_signature_regions detect_qr_regions
                                   opts pil));
                     ("redacted",
                      VFindings (selected_boxes ocr_with_boxes nlp detect_faces
                                   find_signature_regions detect_qr_regions
                                   checkbox opts pil));
                     ("mode", VStr mode);
                     ("timestamp", VStr timestamp);
                     ("page", VStr tag) ])
    /\ (forall (pages : list page) (images : list image)
               (logs : list log_entry),
           run_batch GaussianBlur ocr_with_boxes nlp detect_faces
                     find_signature_regions detect_qr_regions checkbox
                     timestamp opts pages = Some (images, logs) ->
           Forall2 (fun p log =>
                      exists img,
                        run_page (page_image p) (page_name p) (page_tag p)
                        = Some (img, log))
                   pages logs).
Proof.
  intros G ocr nlp faces signatures qrs checkbox now opts run_page. split.
  - intros pil name tag img log Hrun.
    apply process_one_pil_log in Hrun.
    exists (method_name (redact_method opts)). split.
    + destruct (redact_method opts); [now left | now right].
    + exact Hrun.
  - intros pages images logs. apply run_batch_logs.
Qed.

(** The log entry of the page with the split phone number, alone and in
    the log of its batch. *)
Lemma log_entry_wire_format_witness :
  map fst split_phone_log
  = ["file"; "detections"; "redacted"; "mode"; "timestamp"; "page"]
  /\ Forall2 (fun p log =>
                exists img,
                  process_one_pil flat_blur (fun _ => split_phone_lines) None
                    (fun _ => []) (fun _ _ => []) (fun _ => [])
                    (fun _ => true) "20240101T000000" example_options
                    (page_image p) (page_name p) (page_tag p)
                  = Some (img, log))
             [Page split_phone_page "scan.png" "(p1)"] [split_phone_log].
Proof.
  destruct (log_entry_wire_format
              flat_blur (fun _ => split_phone_lines) None
              (fun _ => []) (fun _ _ => []) (fun _ => [])
              (fun _ => true) "20240101T000000" example_options)
    as [Hone Hbatch].
  split.
  - destruct (Hone split_phone_page "scan.png" "(p1)"
                   split_phone_image split_phone_log)
      as (mode & _ & Hlog).
    + vm_compute. reflexivity.
    + rewrite Hlog. reflexivity.
  - apply (Hbatch [Page split_phone_page "scan.png" "(p1)"]
                  [split_phone_image]).
    vm_compute. reflexivity.
Defined.

(* ===================================================================== *)
(** ** Slices *)
(* ===================================================================== *)

Lemma slice_index_range (n i : Z) : 0 <= n -> 0 <= slice_index n i <= n.
Proof. unfold slice_index. destruct (i <? 0) eqn:E; lia. Qed.

Lemma slice_inside_closed (n a b : Z) (i : nat) :
  0 <= a -> 0 <= b <= n ->
  (Z.to_nat (slice_index n a) <= i
   < Z.to_nat (Z.max (slice_index n a) (slice_index n b)))%nat ->
  in_closed a b (Z.of_nat i) = true.
Proof.
  intros Ha Hb. unfold slice_index, in_closed.
  destruct (a <? 0) eqn:E1; [lia|]. destruct (b <? 0) eqn:E2; [lia|].
  rewrite andb_true_iff, !Z.leb_le. lia.
Qed.

Section Slices.

Context {A : Type}.

Lemma slice_lo_hi (l : list A) (a b : Z) :
  (slice_lo l a <= slice_hi l a b <= List.length l)%nat.
Proof.
  unfold slice_lo, slice_hi, zlength.
  pose proof (slice_index_range (Z.of_nat (List.length l)) a).
  pose proof (slice_index_range (Z.of_nat (List.length l)) b).
  lia.
Qed.

Lemma slice_unfold (l : list A) (a b : Z) :
  slice l a b = firstn (slice_hi l a b - slice_lo l a) (skipn (slice_lo l a) l).
Proof.
  unfold slice, slice_lo, slice_hi. f_equal.
  pose proof (slice_index_range (zlength l) a).
  pose proof (slice_index_range (zlength l) b).
  unfold zlength in *. lia.
Qed.

Lemma length_slice (l : list A) (a b : Z) :
  List.length (slice l a b) = (slice_hi l a b - slice_lo l a)%nat.
Proof.
  rewrite slice_unfold, length_firstn, length_skipn.
  pose proof (slice_lo_hi l a b). lia.
Qed.

Lemma nth_error_slice (l : list A) (a b : Z) (m : nat) :
  (m < slice_hi l a b - slice_lo l a)%nat ->
  nth_error (slice l a b) m = nth_error l (slice_lo l a + m).
Proof.
  intros Hm. rewrite slice_unfold, nth_error_firstn, nth_error_skipn.
  apply Nat.ltb_lt in Hm. now rewrite Hm.
Qed.

Lemma splice_unfold (l : list A) (a b : Z) (new : list A) :
  splice l a b new
  = (firstn (slice_lo l a) l ++ new ++ skipn (slice_hi l a b) l)%list.
Proof. reflexivity. Qed.

Lemma length_splice (l : list A) (a b : Z) (new : list A) :
  List.length new = List.length (slice l a b) ->
  List.length (splice l a b new) = List.length l.
Proof.
  intros Hnew. rewrite length_slice in Hnew.
  rewrite splice_unfold, !length_app, length_firstn, length_skipn.
  pose proof (slice_lo_hi l a b). lia.
Qed.

Lemma nth_error_splice_outside (l : list A) (a b : Z) (new : list A) (n : nat) :
  List.length new = List.length (slice l a b) ->
  (n < slice_lo l a \/ slice_hi l a b <= n)%nat ->
  nth_error (splice l a b new) n = nth_error l n.
Proof.
  intros Hnew Hn. rewrite length_slice in Hnew.
  pose proof (slice_lo_hi l a b) as Hb.
  assert (Hfirst : List.length (firstn (slice_lo l a) l) = slice_lo l a)
    by (rewrite length_firstn; lia).
  rewrite splice_unfold. destruct Hn as [Hn|Hn].
  - rewrite nth_error_app1 by lia. rewrite nth_error_firstn.
    apply Nat.ltb_lt in Hn. now rewrite Hn.
  - rewrite nth_error_app2 by lia. rewrite nth_error_app2 by lia.
    rewrite nth_error_skipn. f_equal. lia.
Qed.

Lemma nth_error_splice_inside (l : list A) (a b : Z) (new : list A) (n : nat) :
  List.length new = List.length (slice l a b) ->
  (slice_lo l a <= n < slice_hi l a b)%nat ->
  nth_error (splice l a b new) n = nth_error new (n - slice_lo l a).
Proof.
  intros Hnew Hn. rewrite length_slice in Hnew.
  pose proof (slice_lo_hi l a b) as Hb.
  assert (Hfirst : List.length (firstn (slice_lo l a) l) = slice_lo l a)
    by (rewrite length_firstn; lia).
  rewrite splice_unfold, nth_error_app2 by lia.
  rewrite nth_error_app1 by lia. f_equal. lia.
Qed.

End Slices.

Lemma nth_error_map2 {A B C : Type} (f : A -> B -> C) (l : list A) (m : list B)
      (n : nat) :
  nth_error (map2 f l m) n
  = match nth_error l n, nth_error m n with
    | Some a, Some b => Some (f a b)
    | _, _ => None
    end.
Proof.
  revert m n. induction l as [|a l IH]; intros m n.
  - simpl. destruct n; reflexivity.
  - destruct m as [|b m]; simpl.
    + destruct n; simpl; [reflexivity|]. destruct (nth_error l n); reflexivity.
    + destruct n; simpl; [reflexivity | apply IH].
Qed.

Lemma length_map2 {A B C : Type} (f : A -> B -> C) (l : list A) (m : list B) :
  List.length l = List.length m -> List.length (map2 f l m) = List.length l.
Proof.
  revert m. induction l as [|a l IH]; intros [|b m]; simpl; try discriminate;
    auto.
Qed.

Lemma same_shape_rows (a b : image) :
  same_shape a b = true ->
  List.length a = List.length b
  /\ forall (n : nat) (r s : list pixel),
       nth_error a n = Some r -> nth_error b n = Some s ->
       List.length r = List.length s.
Proof.
  revert b. induction a as [|r a IH]; intros [|s b]; simpl; try discriminate.
  - intros _. split; [reflexivity|]. intros [|n]; discriminate.
  - rewrite andb_true_iff, Nat.eqb_eq. intros [Hrs Hab].
    destruct (IH b Hab) as [Hlen Hrows]. split; [now rewrite Hlen|].
    intros [|n] r' s'; simpl.
    + now intros [= <-] [= <-].
    + apply Hrows.
Qed.

(* ===================================================================== *)
(** ** What a turn of the loop leaves alone *)
(* ===================================================================== *)

Lemma nth_error_mapi_from {A B : Type} (f : Z -> A -> B) (k : Z) (l : list A)
      (n : nat) :
  nth_error (mapi_from f k l) n
  = option_map (f (k + Z.of_nat n)) (nth_error l n).
Proof.
  revert k n. induction l as [|a l IH]; intros k [|n]; simpl; auto.
  - now rewrite Z.add_0_r.
  - rewrite IH. do 2 f_equal. lia.
Qed.

Lemma pixel_at_paint (P : Z -> Z -> bool) (c : pixel) (img : image) (i j : nat) :
  pixel_at (paint P c img) i j
  = option_map (fun p => if P (Z.of_nat i) (Z.of_nat j) then c else p)
               (pixel_at img i j).
Proof.
  unfold pixel_at, paint. rewrite nth_error_mapi_from.
  destruct (nth_error img i) as [row|]; simpl; [|reflexivity].
  now rewrite nth_error_mapi_from.
Qed.

Lemma pixel_at_cv_to_pil (img : image) (i j : nat) :
  pixel_at (cv_to_pil img) i j = option_map swap_channels (pixel_at img i j).
Proof.
  unfold pixel_at, cv_to_pil. rewrite nth_error_map.
  destruct (nth_error img i) as [row|]; simpl; [|reflexivity].
  apply nth_error_map.
Qed.

Lemma paint_rows_of_width (P : Z -> Z -> bool) (c : pixel) (W : Z) (img : image) :
  rows_of_width W img -> rows_of_width W (paint P c img).
Proof.
  intros Himg row Hrow. apply In_nth_error in Hrow as [n Hn].
  unfold paint in Hn. rewrite nth_error_mapi_from in Hn.
  destruct (nth_error img n) as [row0|] eqn:E; [|discriminate].
  injection Hn as <-. unfold zlength. rewrite length_mapi_from.
  apply (Himg row0). eapply nth_error_In. exact E.
Qed.

Lemma assign_crop_frame (W : Z) (img : image) (y0 y1 x0 x1 : Z)
      (new out : image) :
  rows_of_width W img ->
  assign_crop img y0 y1 x0 x1 new = Some out ->
  List.length out = List.length img
  /\ rows_of_width W out
  /\ forall i j : nat,
       ~ ((slice_lo img y0 <= i < slice_hi img y0 y1)%nat
          /\ (Z.to_nat (slice_index W x0) <= j
              < Z.to_nat (Z.max (slice_index W x0) (slice_index W x1)))%nat) ->
       pixel_at out i j = pixel_at img i j.
Proof.
  intros Himg. unfold assign_crop.
  destruct (same_shape (crop img y0 y1 x0 x1) new) eqn:Hshape; [|discriminate].
  intros [= <-].
  apply same_shape_rows in Hshape as [Hlen Hrows].
  unfold crop in Hlen, Hrows. rewrite length_map in Hlen.
  set (rows := slice img y0 y1) in *.
  set (rows' := map2 (fun row new_row => splice row x0 x1 new_row) rows new).
  assert (Hrows' : List.length rows' = List.length (slice img y0 y1))
    by (unfold rows'; now rewrite length_map2).
  pose proof (slice_lo_hi img y0 y1) as Hb.
  (* a row inside the slice is an old row with its own slice replaced *)
  assert (Hinside : forall i : nat,
             (slice_lo img y0 <= i < slice_hi img y0 y1)%nat ->
             exists r nr,
               nth_error img i = Some r
               /\ List.length nr = List.length (slice r x0 x1)
               /\ nth_error (splice img y0 y1 rows') i
                  = Some (splice r x0 x1 nr)).
  { intros i Hi.
    assert (Hr : nth_error rows (i - slice_lo img y0)
                 = nth_error img i).
    { unfold rows. rewrite nth_error_slice by lia. f_equal. lia. }
    destruct (nth_error img i) as [r|] eqn:Er.
    2:{ apply nth_error_None in Er. lia. }
    destruct (nth_error new (i - slice_lo img y0)) as [nr|] eqn:Enr.
    2:{ apply nth_error_None in Enr. rewrite <- Hlen in Enr.
        unfold rows in Enr. rewrite length_slice in Enr. lia. }
    exists r, nr. split; [reflexivity|]. split.
    - symmetry. apply (Hrows (i - slice_lo img y0)%nat); [|exact Enr].
      rewrite nth_error_map, Hr. reflexivity.
    - rewrite nth_error_splice_inside by assumption.
      unfold rows'. rewrite nth_error_map2, Hr, Enr. reflexivity. }
  split; [now apply length_splice|]. split.
  - intros row Hrow. apply In_nth_error in Hrow as [n Hn].
    destruct (le_lt_dec (slice_lo img y0) n) as [Hlo|Hlo];
      [destruct (le_lt_dec (slice_hi img y0 y1) n) as [Hhi|Hhi]|].
    + rewrite nth_error_splice_outside in Hn by (auto; lia).
      apply (Himg row). eapply nth_error_In. exact Hn.
    + destruct (Hinside n (conj Hlo Hhi)) as (r & nr & Hr & Hnr & Hout).
      rewrite Hout in Hn. injection Hn as <-.
      unfold zlength. rewrite length_splice by exact Hnr.
      apply (Himg r). eapply nth_error_In. exact Hr.
    + rewrite nth_error_splice_outside in Hn by (auto; lia).
      apply (Himg row). eapply nth_error_In. exact Hn.
  - intros i j Hout. unfold pixel_at.
    destruct (le_lt_dec (slice_lo img y0) i) as [Hlo|Hlo];
      [destruct (le_lt_dec (slice_hi img y0 y1) i) as [Hhi|Hhi]|].
    + now rewrite nth_error_splice_outside by (auto; lia).
    + destruct (Hinside i (conj Hlo Hhi)) as (r & nr & Hr & Hnr & Hrow).
      rewrite Hrow, Hr.
      assert (HW : zlength r = W)
        by (apply (Himg r); eapply nth_error_In; exact Hr).
      apply nth_error_splice_outside; [exact Hnr|].
      unfold slice_lo, slice_hi. rewrite HW. lia.
    + now rewrite nth_error_splice_outside by (auto; lia).
Qed.

Section Frame.

Variable G : image -> Z -> option image.

Lemma blur_region_frame (W H : Z) (out out' : image) (x0 y0 x1 y1 : Z) :
  rows_of_width W out -> height out = H ->
  0 <= x0 -> 0 <= y0 -> 0 <= x1 <= W -> 0 <= y1 <= H ->
  blur_region G out x0 y0 x1 y1 = Some out' ->
  height out' = H
  /\ rows_of_width W out'
  /\ forall i j : nat,
       (in_closed y0 y1 (Z.of_nat i) && in_closed x0 x1 (Z.of_nat j))%bool = false ->
       pixel_at out' i j = pixel_at out i j.
Proof.
  intros Hrows Hheight Hx0 Hy0 Hx1 Hy1. unfold blur_region.
  destruct (is_empty_image (crop out y0 y1 x0 x1)).
  { intros [= <-]. auto. }
  destruct (G (crop out y0 y1 x0 x1) (kernel_size (x1 - x0))) as [blurred|];
    [|discriminate].
  intros Hassign.
  destruct (assign_crop_frame W out y0 y1 x0 x1 blurred out' Hrows Hassign)
    as (Hlen & Hrows' & Hframe).
  split; [unfold height, zlength in *; congruence|]. split; [exact Hrows'|].
  intros i j Hout. apply Hframe. intros [Hi Hj].
  unfold slice_lo, slice_hi in Hi. fold (height out) in Hi. rewrite Hheight in Hi.
  rewrite (slice_inside_closed H y0 y1 i Hy0 Hy1 Hi) in Hout.
  rewrite (slice_inside_closed W x0 x1 j Hx0 Hx1 Hj) in Hout.
  discriminate.
Qed.

Lemma redact_one_frame (W H : Z) (mode : string) (out out' : image)
      (det : detection) :
  0 <= W -> rows_of_width W out -> height out = H -> meets_image det ->
  redact_one G W H mode out det = Some out' ->
  height out' = H
  /\ rows_of_width W out'
  /\ forall i j : nat,
       black_rect W H det (Z.of_nat i) (Z.of_nat j) = false ->
       pixel_at out' i j = pixel_at out i j.
Proof.
  intros HW Hrows Hheight Hmeets. unfold redact_one, black_rect.
  unfold meets_image in Hmeets.
  destruct (skip_test (box_of det)) as [[|]|]; [| |discriminate].
  { intros [= <-]. auto. }
  destruct (box_of det) as [|x [|y [|w [|h [|? ?]]]]]; try discriminate.
  unfold expanded_rect.
  destruct (String.eqb mode "black").
  - intros [= <-]. unfold cv2_rectangle. split; [now rewrite height_paint|].
    split; [now apply paint_rows_of_width|].
    intros i j Hout. rewrite pixel_at_paint, Hout.
    destruct (pixel_at out i j); reflexivity.
  - assert (0 <= H) by (rewrite <- Hheight; unfold height, zlength; lia).
    apply blur_region_frame; auto; lia.
Qed.

Lemma redact_loop_frame (W H : Z) (mode : string) (dets : list detection) :
  0 <= W ->
  (forall d, In d dets -> meets_image d) ->
  forall out out' : image,
    rows_of_width W out -> height out = H ->
    redact_loop G W H mode out dets = Some out' ->
    forall i j : nat,
      black_cover W H dets (Z.of_nat i) (Z.of_nat j) = false ->
      pixel_at out' i j = pixel_at out i j.
Proof.
  intros HW. induction dets as [|d dets IH]; intros Hmeet out out' Hrows Hheight.
  - now intros [= <-].
  - simpl. destruct (redact_one G W H mode out d) as [o1|] eqn:Hone;
      [|discriminate].
    intros Hloop i j Hcover. apply orb_false_iff in Hcover as [Hd Hrest].
    destruct (redact_one_frame W H mode out o1 d HW Hrows Hheight
                               (Hmeet d (or_introl eq_refl)) Hone)
      as (Hh1 & Hr1 & Hframe).
    rewrite (IH (fun d' Hd' => Hmeet d' (or_intror Hd')) o1 out' Hr1 Hh1 Hloop
                i j Hrest).
    now apply Hframe.
Qed.

(** In both modes, when every expanded box meets the image, a pixel outside
    the rectangles spanned by the corners [(x0, y0)] and [(x1, y1)] of the
    findings, corners included, comes out as it went in. *)
Lemma apply_redactions_cv_frame (cv_img out : image) (dets : list detection)
      (mode : string) :
  rectangular cv_img ->
  (forall d, In d dets -> meets_image d) ->
  apply_redactions_cv G cv_img dets mode = Some out ->
  forall i j : nat,
    black_cover (width cv_img) (height cv_img) dets (Z.of_nat i) (Z.of_nat j)
    = false ->
    pixel_at out i j = pixel_at (cv_to_pil cv_img) i j.
Proof.
  intros Hrect Hmeet. unfold apply_redactions_cv.
  destruct (redact_loop G (width cv_img) (height cv_img) mode cv_img dets)
    as [o|] eqn:Hloop; [|discriminate].
  intros [= <-] i j Hcover. rewrite !pixel_at_cv_to_pil. f_equal.
  apply (redact_loop_frame (width cv_img) (height cv_img) mode dets); auto.
  destruct cv_img; unfold width, zlength; lia.
Qed.

End Frame.

(* ===================================================================== *)
(** ** The input array is not written *)
(* ===================================================================== *)

Lemma length_write (s : store) (a : nat) (img : image) :
  (a < List.length s)%nat -> List.length (write s a img) = List.length s.
Proof.
  intros Ha. unfold write.
  rewrite length_app. cbn [List.length]. rewrite length_firstn, length_skipn. lia.
Qed.

Lemma nth_error_write_same (s : store) (a : nat) (img : image) :
  (a < List.length s)%nat -> nth_error (write s a img) a = Some img.
Proof.
  intros Ha. unfold write.
  rewrite nth_error_app2 by (rewrite length_firstn; lia).
  rewrite length_firstn. replace (a - Nat.min a (List.length s))%nat with O by lia.
  reflexivity.
Qed.

Lemma nth_error_write_other (s : store) (a b : nat) (img : image) :
  (a < List.length s)%nat -> a <> b ->
  nth_error (write s a img) b = nth_error s b.
Proof.
  intros Ha Hab. unfold write.
  destruct (le_lt_dec a b) as [Hle|Hlt].
  - rewrite nth_error_app2 by (rewrite length_firstn; lia).
    rewrite length_firstn. replace (Nat.min a (List.length s)) with a by lia.
    destruct (b - a)%nat as [|k] eqn:Ek; [lia|]. cbn [nth_error].
    rewrite nth_error_skipn. f_equal. lia.
  - rewrite nth_error_app1 by (rewrite length_firstn; lia).
    rewrite nth_error_firstn. apply Nat.ltb_lt in Hlt. now rewrite Hlt.
Qed.

Section InPlaceFacts.

Variable G : image -> Z -> option image.

Lemma redact_loop_in_place_spec (W H : Z) (mode : string)
      (dets : list detection) :
  forall (s : store) (out : nat) (current : image),
    nth_error s out = Some current ->
    match redact_loop G W H mode current dets with
    | Some final =>
        exists s' : store,
          redact_loop_in_place G W H mode s out dets = Some s'
          /\ nth_error s' out = Some final
          /\ forall b : nat, b <> out -> nth_error s' b = nth_error s b
    | None => redact_loop_in_place G W H mode s out dets = None
    end.
Proof.
  induction dets as [|d dets IH]; intros s out current Hcur; simpl.
  - exists s. auto.
  - rewrite Hcur. destruct (redact_one G W H mode current d) as [new|];
      [|reflexivity].
    assert (Hout : (out < List.length s)%nat)
      by (apply nth_error_Some; congruence).
    specialize (IH (write s out new) out new (nth_error_write_same s out new Hout)).
    destruct (redact_loop G W H mode new dets) as [final|]; [|exact IH].
    destruct IH as (s' & Hrun & Hfinal & Hothers).
    exists s'. split; [exact Hrun|]. split; [exact Hfinal|].
    intros b Hb. rewrite (Hothers b Hb).
    apply nth_error_write_other; auto.
Qed.

(** Run on an array of the store, the applier returns what it returns on
    the value of that array, and leaves every array the store held,
    the input among them, as it was. *)
Lemma apply_redactions_cv_keeps_input (s : store) (cv_img : nat) (img : image)
      (dets : list detection) (mode : string) :
  nth_error s cv_img = Some img ->
  match apply_redactions_cv G img dets mode with
  | Some result =>
      exists s' : store,
        apply_redactions_cv_in_place G s cv_img dets mode = Some (result, s')
        /\ forall a : nat,
             (a < List.length s)%nat -> nth_error s' a = nth_error s a
  | None => apply_redactions_cv_in_place G s cv_img dets mode = None
  end.
Proof.
  intros Himg. unfold apply_redactions_cv, apply_redactions_cv_in_place, np_copy.
  rewrite Himg.
  assert (Hout : nth_error (s ++ [img]) (List.length s) = Some img).
  { rewrite nth_error_app2 by lia. now rewrite Nat.sub_diag. }
  rewrite Hout.
  pose proof (redact_loop_in_place_spec (width img) (height img) mode dets
                (s ++ [img])%list (List.length s) img Hout) as Hloop.
  destruct (redact_loop G (width img) (height img) mode img dets) as [final|];
    simpl.
  - destruct Hloop as (s' & -> & -> & Hothers). exists s'. split; [reflexivity|].
    intros a Ha. rewrite (Hothers a) by lia. now apply nth_error_app1.
  - now rewrite Hloop.
Qed.

End InPlaceFacts.

(* ===================================================================== *)
(** ** Boxes outside the image *)
(* ===================================================================== *)

(** The corners are within the image as soon as the expanded box meets it:
    [x0] and [y0] are clamped from below only, [x1] and [y1] from above
    only. *)
Lemma expanded_rect_clamped (W H x y w h x0 y0 x1 y1 : Z) :
  0 <= W -> 0 <= H ->
  x - pad w <= W -> y - pad h <= H ->
  0 <= x + w + pad w -> 0 <= y + h + pad h ->
  expanded_rect W H x y w h = (x0, y0, x1, y1) ->
  0 <= x0 <= W /\ 0 <= x1 <= W /\ 0 <= y0 <= H /\ 0 <= y1 <= H.
Proof. unfold expanded_rect. intros ? ? ? ? ? ? [= <- <- <- <-]. lia. Qed.

(** C6, on the code.  For a box that lies wholly to the left of the image
    the corner [x1] is negative, outside [0, W]; in blur mode the slice
    [out[0:10, 0:-90]] counts the negative bound from the right edge, so
    that the 110 leftmost columns are handed to the blur and written back;
    in black mode a rectangle that is empty after clamping is filled all
    the same, here the columns 30 to 50 of an inverted box. *)
Theorem box_left_of_image_wraps :
  expanded_rect (width wide_page) (height wide_page) (-100) 0 10 10
  = (0, 0, -90, 10)
  /\ crop wide_page 0 10 0 (-90) = blank 10 110 white
  /\ (forall GaussianBlur : image -> Z -> option image,
         redact_one GaussianBlur 200 20 "blur" wide_page left_of_page
         = match GaussianBlur (blank 10 110 white) 15 with
           | Some blurred => assign_crop wide_page 0 10 0 (-90) blurred
           | None => None
           end)
  /\ apply_redactions_cv flat_blur wide_page [left_of_page] "blur"
     = Some (repeat (repeat grey 110 ++ repeat white 90) 10
             ++ repeat (repeat white 200) 10)%list
  /\ expanded_rect (width wide_page) (height wide_page) 50 5 (-20) 10
     = (50, 5, 30, 15)
  /\ apply_redactions_cv flat_blur wide_page [inverted] "black"
     = Some (repeat (repeat white 200) 5
             ++ repeat (repeat white 30 ++ repeat black 21 ++ repeat white 149) 11
             ++ repeat (repeat white 200) 4)%list.
Proof.
  split; [vm_compute; reflexivity|].
  split; [vm_compute; reflexivity|].
  split; [intros G; reflexivity|].
  split; [vm_compute; reflexivity|].
  split; vm_compute; reflexivity.
Qed.

(** C5, on the code.  The box of [left_of_page] lies outside the image, so
    that no pixel is inside its expanded and clamped rectangle; yet blur
    mode changes the pixel in row 0, column 100, and black mode the pixel
    in row 0, column 0.  For a box well inside the image, black mode also
    fills the row [y1] and the column [x1], which blur mode leaves alone:
    the pixel in row 3, column 3 is outside the rectangle [1, 3) x [1, 3). *)
Theorem pixels_outside_rectangles_change :
  (forall i j : Z,
      ~ in_rect 0 0 (Z.max 0 (-100 + 10 + pad 10)) 10 i j)
  /\ pixel_at (cv_to_pil wide_page) 0 100 = Some white
  /\ (exists out : image,
         apply_redactions_cv flat_blur wide_page [left_of_page] "blur" = Some out
         /\ pixel_at out 0 100 = Some grey)
  /\ pixel_at (cv_to_pil wide_page) 0 0 = Some white
  /\ (exists out : image,
         apply_redactions_cv flat_blur wide_page [left_of_page] "black" = Some out
         /\ pixel_at out 0 0 = Some black)
  /\ expanded_rect (width small_page) (height small_page) 1 1 2 2 = (1, 1, 3, 3)
  /\ ~ in_rect 1 1 3 3 3 3
  /\ pixel_at (cv_to_pil small_page) 3 3 = Some white
  /\ (exists out : image,
         apply_redactions_cv flat_blur small_page [inner_box] "black" = Some out
         /\ pixel_at out 3 3 = Some black)
  /\ (exists out : image,
         apply_redactions_cv flat_blur small_page [inner_box] "blur" = Some out
         /\ pixel_at out 3 3 = Some white).
Proof.
  split.
  { intros i j [_ Hj]. change (pad 10) with 0 in Hj. lia. }
  split; [vm_compute; reflexivity|].
  split; [eexists; split; [vm_compute; reflexivity | vm_compute; reflexivity]|].
  split; [vm_compute; reflexivity|].
  split; [eexists; split; [vm_compute; reflexivity | vm_compute; reflexivity]|].
  split; [vm_compute; reflexivity|].
  split; [unfold in_rect; lia|].
  split; [vm_compute; reflexivity|].
  split; eexists; (split; [vm_compute; reflexivity | vm_compute; reflexivity]).
Qed.
